(** * windows/runner/utils.cpp: bounded UTF-16 to UTF-8 conversion

    A shallow embedding of [safe_wcsnlen], [kMaxUtf16Scan] and
    [Utf8FromUtf16] from [windows/runner/utils.cpp], together with the
    properties the specification states about them.

    Integers of the program are modelled as [Z] with the wrap-around of
    their C++ type written out; a [const wchar_t *] is either [nullptr]
    or a view of the memory behind the pointer (offset to code unit); a
    [std::string] is the list of its bytes. *)

From Stdlib Require Import ZArith List Lia Bool.
Import ListNotations.
Open Scope Z_scope.

(** ** Machine integers *)

Module Cxx.

(** [size_t] of the 64-bit Windows targets. *)
Definition SIZE_MAX : Z := 2 ^ 64 - 1.

(** [std::numeric_limits<int>::max()]. *)
Definition INT_MAX : Z := 2 ^ 31 - 1.

(** Unsigned arithmetic on [size_t] wraps modulo [2^64]. *)
Definition static_cast_size_t (z : Z) : Z := z mod 2 ^ 64.

(** [static_cast<int>]: reduction to the signed 32-bit range. *)
Definition static_cast_int (z : Z) : Z := (z + 2 ^ 31) mod 2 ^ 32 - 2 ^ 31.

(** [++i] on a [size_t]. *)
Definition size_succ (i : Z) : Z := static_cast_size_t (i + 1).

End Cxx.
Import Cxx.

(** ** Wide strings and byte strings *)

(** A UTF-16 code unit: [wchar_t] is 16 bits wide on Windows. *)
Abbreviation wchar_t := Z (only parsing).
Definition WCHAR_MAX : Z := 65535.

(** One byte of a [std::string]. *)
Abbreviation char := Z (only parsing).

(** [std::string] as the sequence of its bytes, without terminator. *)
Abbreviation std_string := (list char) (only parsing).

(** A [const wchar_t *]: the absent pointer, or the memory that starts
    at the pointer, read by offset. *)
Inductive wptr : Type :=
| nullptr
| ptr (s : Z -> wchar_t).

(** The first [n] code units behind a pointer, [s[0] .. s[n-1]]. *)
Definition wcs (s : Z -> wchar_t) (n : Z) : list wchar_t :=
  map (fun k => s (Z.of_nat k)) (seq 0 (Z.to_nat n)).

(** The [n] code units [s[i] .. s[i+n-1]]. *)
Definition wcs_from (s : Z -> wchar_t) (i : Z) (n : nat) : list wchar_t :=
  map (fun k => s (i + Z.of_nat k)) (seq 0 n).

(** All of the first [n] units are 16-bit values. *)
Definition wchars (s : Z -> wchar_t) (n : Z) : Prop :=
  forall i, 0 <= i < n -> 0 <= s i <= WCHAR_MAX.

(** [n] is the C-string length of [s]: the first null element is at [n]. *)
Definition wcslen_is (s : Z -> wchar_t) (n : Z) : Prop :=
  0 <= n /\ s n = 0 /\ forall i, 0 <= i < n -> s i <> 0.

(** ** [safe_wcsnlen] *)

(** The loop [for (; i < max && s[i] != L'\0'; ++i) {}], one iteration
    per unit of fuel; it returns the value of [i] at exit. *)
Fixpoint safe_wcsnlen_loop (fuel : nat) (s : Z -> wchar_t) (max i : Z) : Z :=
  match fuel with
  | O => i
  | S fuel' =>
      if (i <? max) && negb (s i =? 0)
      then safe_wcsnlen_loop fuel' s max (size_succ i)
      else i
  end.

(** [static size_t safe_wcsnlen(const wchar_t *s, size_t max)].  The loop
    runs at most [max] times, which is the fuel it is given. *)
Definition safe_wcsnlen (s : wptr) (max : Z) : Z :=
  match s with
  | nullptr => 0
  | ptr m => safe_wcsnlen_loop (Z.to_nat max) m max 0
  end.

(** [static constexpr size_t kMaxUtf16Scan = 1U << 20]. *)
Definition kMaxUtf16Scan : Z := Z.shiftl 1 20.

(** ** Unicode encoding forms *)

Module Unicode.

(** Leading (high) and trailing (low) surrogate code units. *)
Definition is_high_surrogate (u : Z) : bool := (0xD800 <=? u) && (u <=? 0xDBFF).
Definition is_low_surrogate (u : Z) : bool := (0xDC00 <=? u) && (u <=? 0xDFFF).
Definition is_surrogate (u : Z) : bool := (0xD800 <=? u) && (u <=? 0xDFFF).

(** A Unicode scalar value: a code point that is not a surrogate. *)
Definition scalar_value (cp : Z) : Prop :=
  0 <= cp <= 0x10FFFF /\ is_surrogate cp = false.

(** The supplementary code point a surrogate pair stands for. *)
Definition surrogate_pair (hi lo : Z) : Z :=
  0x10000 + (hi - 0xD800) * 0x400 + (lo - 0xDC00).

(** UTF-16 decoding: code units to code points; [None] when a surrogate
    has no partner. *)
Fixpoint utf16_decode (units : list Z) : option (list Z) :=
  match units with
  | [] => Some []
  | u :: rest =>
      if is_high_surrogate u then
        match rest with
        | v :: rest' =>
            if is_low_surrogate v
            then option_map (cons (surrogate_pair u v)) (utf16_decode rest')
            else None
        | [] => None
        end
      else if is_low_surrogate u then None
      else option_map (cons u) (utf16_decode rest)
  end.

(** The code unit at position [i] is an unpaired surrogate: a high
    surrogate that no low surrogate follows, or a low surrogate that no
    high surrogate precedes. *)
Definition unpaired (units : list Z) (i : nat) : bool :=
  match nth_error units i with
  | None => false
  | Some u =>
      (is_high_surrogate u &&
       negb match nth_error units (S i) with
            | Some v => is_low_surrogate v
            | None => false
            end)
      || (is_low_surrogate u &&
          negb match i with
               | O => false
               | S j => match nth_error units j with
                        | Some v => is_high_surrogate v
                        | None => false
                        end
               end)
  end.

(** UTF-8 encoding of one code point (bit distribution of the Unicode
    standard, written with division and remainder). *)
Definition utf8_encode (cp : Z) : list Z :=
  if cp <? 0x80 then [cp]
  else if cp <? 0x800 then [0xC0 + cp / 64; 0x80 + cp mod 64]
  else if cp <? 0x10000 then
    [0xE0 + cp / 4096; 0x80 + (cp / 64) mod 64; 0x80 + cp mod 64]
  else
    [0xF0 + cp / 262144; 0x80 + (cp / 4096) mod 64;
     0x80 + (cp / 64) mod 64; 0x80 + cp mod 64].

(** The standard UTF-8 encoding of a UTF-16 code unit sequence. *)
Definition utf8_of_utf16 (units : list Z) : option (list Z) :=
  option_map (flat_map utf8_encode) (utf16_decode units).

Definition is_continuation (b : Z) : bool := (0x80 <=? b) && (b <=? 0xBF).

(** UTF-8 decoding: bytes to code points; [None] on ill-formed input
    (stray or missing continuation bytes, overlong forms, surrogates,
    values above U+10FFFF). *)
Fixpoint utf8_decode (bytes : list Z) : option (list Z) :=
  match bytes with
  | [] => Some []
  | b0 :: r0 =>
      if b0 <? 0 then None
      else if b0 <? 0x80 then option_map (cons b0) (utf8_decode r0)
      else if b0 <? 0xC0 then None
      else if b0 <? 0xE0 then
        match r0 with
        | b1 :: r1 =>
            let cp := (b0 - 0xC0) * 64 + (b1 - 0x80) in
            if is_continuation b1 && (0x80 <=? cp)
            then option_map (cons cp) (utf8_decode r1)
            else None
        | _ => None
        end
      else if b0 <? 0xF0 then
        match r0 with
        | b1 :: b2 :: r2 =>
            let cp := (b0 - 0xE0) * 4096 + (b1 - 0x80) * 64 + (b2 - 0x80) in
            if is_continuation b1 && is_continuation b2
               && (0x800 <=? cp) && negb (is_surrogate cp)
            then option_map (cons cp) (utf8_decode r2)
            else None
        | _ => None
        end
      else if b0 <? 0xF8 then
        match r0 with
        | b1 :: b2 :: b3 :: r3 =>
            let cp := (b0 - 0xF0) * 262144 + (b1 - 0x80) * 4096
                      + (b2 - 0x80) * 64 + (b3 - 0x80) in
            if is_continuation b1 && is_continuation b2 && is_continuation b3
               && (0x10000 <=? cp) && (cp <=? 0x10FFFF)
            then option_map (cons cp) (utf8_decode r3)
            else None
        | _ => None
        end
      else None
  end.

End Unicode.
Import Unicode.

(** ** The platform the runner calls into *)

(** Code page and flag constants of [<windows.h>]. *)
Definition CP_UTF8 : Z := 65001.
Definition WC_ERR_INVALID_CHARS : Z := 0x80.

(** What the program needs from its environment.
    [sys_WideCharToMultiByte CodePage dwFlags lpWideCharStr cchWideChar
    cbMultiByte] is the Win32 conversion primitive: it returns the [int]
    result of the call and the bytes it stores at the destination
    [lpMultiByteStr] (none for a size query, where [cbMultiByte] is 0 and
    the destination is [nullptr]); the two trailing default-character
    arguments are always [nullptr] in this program and are left out.
    [sys_max_size] is [std::string::max_size()]. *)
Record Platform : Type := {
  sys_WideCharToMultiByte :
    Z -> Z -> (Z -> wchar_t) -> Z -> Z -> Z * list char;
  sys_max_size : Z
}.

(** Programs over the platform: a result, or a platform call and the
    rest of the program. *)
Inductive win (A : Type) : Type :=
| Return (a : A)
| WideCharToMultiByte (CodePage dwFlags : Z) (lpWideCharStr : Z -> wchar_t)
    (cchWideChar cbMultiByte : Z) (k : Z -> list char -> win A)
| max_size (k : Z -> win A).
Arguments Return {A} a.
Arguments WideCharToMultiByte {A} CodePage dwFlags lpWideCharStr
  cchWideChar cbMultiByte k.
Arguments max_size {A} k.

Notation "'let*' ( r , out ) ':=' c 'in' k" :=
  (c (fun r out => k))
  (at level 10, r name, out name, c at level 100, k at level 200,
   only parsing).
Notation "'let*' m ':=' 'max_size' 'in' k" :=
  (max_size (fun m => k))
  (at level 10, m name, k at level 200, only parsing).

(** Running a program on a platform. *)
Fixpoint exec {A : Type} (W : Platform) (p : win A) : A :=
  match p with
  | Return a => a
  | WideCharToMultiByte cp fl s cch cb k =>
      let r := sys_WideCharToMultiByte W cp fl s cch cb in
      exec W (k (fst r) (snd r))
  | max_size k => exec W (k (sys_max_size W))
  end.

(** The number of conversion calls a program makes on a platform. *)
Fixpoint conversions {A : Type} (W : Platform) (p : win A) : nat :=
  match p with
  | Return _ => O
  | WideCharToMultiByte cp fl s cch cb k =>
      let r := sys_WideCharToMultiByte W cp fl s cch cb in
      S (conversions W (k (fst r) (snd r)))
  | max_size k => conversions W (k (sys_max_size W))
  end.

(** ** [std::string] operations *)

(** [s.resize(n)]: truncate, or pad with null bytes. *)
Definition resize (s : std_string) (n : Z) : std_string :=
  firstn (Z.to_nat n) s ++ repeat 0 (Z.to_nat n - length s).

(** The contents of a buffer after [written] has been stored at its
    start; the size of the buffer does not change. *)
Definition store (buf : std_string) (written : list char) : std_string :=
  firstn (length buf) (written ++ skipn (length written) buf).

(** ** [Utf8FromUtf16] *)

(** The [return] statement by which [Utf8FromUtf16] leaves, with the
    results of the conversion passes where they were made. *)
Inductive exit : Type :=
| AbsentInput
| EmptyInput
| Unterminated
| LengthOverflow
| SizeQueryFailed (target_length : Z)
| ConversionFailed (target_length : Z)
| Converted (target_length converted_length : Z).

(** [std::string Utf8FromUtf16(const wchar_t *utf16_string)].  The
    result is paired with the exit taken.  The short-circuit [||] of the
    size check is written as two tests. *)
Definition Utf8FromUtf16 (utf16_string : wptr) : win (exit * std_string) :=
  match utf16_string with
  | nullptr => Return (AbsentInput, [])
  | ptr s =>
      let wlen := safe_wcsnlen utf16_string kMaxUtf16Scan in
      if wlen =? 0 then Return (EmptyInput, [])
      else if wlen =? kMaxUtf16Scan then Return (Unterminated, [])
      else if wlen >? static_cast_size_t INT_MAX then Return (LengthOverflow, [])
      else
        let input_length := static_cast_int wlen in
        let* (target_length, _) :=
          WideCharToMultiByte CP_UTF8 WC_ERR_INVALID_CHARS s input_length 0 in
        let utf8_string : std_string := [] in
        if target_length <=? 0 then Return (SizeQueryFailed target_length, utf8_string)
        else
          let* limit := max_size in
          if static_cast_size_t target_length >? limit
          then Return (SizeQueryFailed target_length, utf8_string)
          else
            let utf8_string := resize utf8_string (static_cast_size_t target_length) in
            let* (converted_length, written) :=
              WideCharToMultiByte CP_UTF8 WC_ERR_INVALID_CHARS s input_length
                                  target_length in
            let utf8_string := store utf8_string written in
            if converted_length =? 0
            then Return (ConversionFailed target_length, [])
            else Return (Converted target_length converted_length, utf8_string)
  end.

(** The string [Utf8FromUtf16] returns on platform [W]. *)
Definition Utf8FromUtf16_on (W : Platform) (utf16_string : wptr) : std_string :=
  snd (exec W (Utf8FromUtf16 utf16_string)).

(** ** The contract of the conversion primitive *)

(** Modelled from the spec: the platform conversion primitive is not part
    of the repository.  The spec asks of it, under the UTF-8 code page and
    strict validation: a size query reports the byte length required to
    convert exactly [n] units; a conversion into a buffer of at least that
    size writes the encoding and reports its length; ill-formed input is
    signalled as an error (result 0) and never replaced; the output buffer
    type can hold any length an [int] can express. *)
Record StrictUtf8 (W : Platform) : Prop := {
  wc_query : forall s n bytes,
    0 < n -> wchars s n ->
    utf8_of_utf16 (wcs s n) = Some bytes ->
    Z.of_nat (length bytes) <= INT_MAX ->
    fst (sys_WideCharToMultiByte W CP_UTF8 WC_ERR_INVALID_CHARS s n 0)
    = Z.of_nat (length bytes);
  wc_convert : forall s n bytes cb,
    0 < n -> wchars s n ->
    utf8_of_utf16 (wcs s n) = Some bytes ->
    0 < Z.of_nat (length bytes) <= cb -> cb <= INT_MAX ->
    sys_WideCharToMultiByte W CP_UTF8 WC_ERR_INVALID_CHARS s n cb
    = (Z.of_nat (length bytes), bytes);
  wc_reject : forall s n cb,
    0 < n -> 0 <= cb ->
    utf8_of_utf16 (wcs s n) = None ->
    fst (sys_WideCharToMultiByte W CP_UTF8 WC_ERR_INVALID_CHARS s n cb) = 0;
  wc_max_size : INT_MAX <= sys_max_size W <= SIZE_MAX
}.

(** Modelled from the spec: the result of the primitive is an [int], and
    a conversion into a buffer of the queried size that succeeds writes
    exactly the queried number of bytes (the size query is an exact
    estimate, not an upper bound). *)
Record SizeQueryExact (W : Platform) : Prop := {
  wc_int : forall cp fl s n cb,
    - 2 ^ 31 <= fst (sys_WideCharToMultiByte W cp fl s n cb) <= INT_MAX;
  wc_exact : forall cp fl s n,
    let t := fst (sys_WideCharToMultiByte W cp fl s n 0) in
    let c := fst (sys_WideCharToMultiByte W cp fl s n t) in
    0 < t -> c <> 0 -> c = t
}.

(** Modelled from the spec: the primitive has no state of its own; its
    result depends on nothing but its arguments and the [cchWideChar]
    units it is given. *)
Definition ReadsOnlyInput (W : Platform) : Prop :=
  forall cp fl s s' n cb,
    (forall i, 0 <= i < n -> s i = s' i) ->
    sys_WideCharToMultiByte W cp fl s n cb
    = sys_WideCharToMultiByte W cp fl s' n cb.

(** ** A model of the Win32 primitive *)

Module Win32.

(** U+FFFD in UTF-8, which the lossy mode writes for an unpaired
    surrogate. *)
Definition REPLACEMENT : list char := [0xEF; 0xBF; 0xBD].

Definition put2 (c : Z) : list char :=
  [Z.lor 0xC0 (Z.shiftr c 6); Z.lor 0x80 (Z.land c 0x3F)].
Definition put3 (c : Z) : list char :=
  [Z.lor 0xE0 (Z.shiftr c 12);
   Z.lor 0x80 (Z.land (Z.shiftr c 6) 0x3F);
   Z.lor 0x80 (Z.land c 0x3F)].
Definition put4 (c : Z) : list char :=
  [Z.lor 0xF0 (Z.shiftr c 18);
   Z.lor 0x80 (Z.land (Z.shiftr c 12) 0x3F);
   Z.lor 0x80 (Z.land (Z.shiftr c 6) 0x3F);
   Z.lor 0x80 (Z.land c 0x3F)].

(** The value of the surrogate pair [hi], [lo]. *)
Definition pair_value (hi lo : Z) : Z :=
  0x10000 + Z.shiftl (Z.land hi 0x3FF) 10 + Z.land lo 0x3FF.

Definition emit (bytes : list char) (rest : option (list char))
  : option (list char) :=
  option_map (app bytes) rest.

(** Modelled from the spec: the conversion loop of the primitive under
    the UTF-8 code page, reading [src[i] .. src[cch-1]] one unit (or one
    surrogate pair) per step.  With [strict] an unpaired surrogate is an
    error; without it U+FFFD is written in its place. *)
Fixpoint transcode (fuel : nat) (strict : bool) (src : Z -> wchar_t)
    (cch i : Z) : option (list char) :=
  match fuel with
  | O => Some []
  | S fuel' =>
      if cch <=? i then Some []
      else
        let ch := src i in
        if ch <? 0x80 then
          emit [ch] (transcode fuel' strict src cch (i + 1))
        else if ch <? 0x800 then
          emit (put2 ch) (transcode fuel' strict src cch (i + 1))
        else if is_high_surrogate ch then
          if (i + 1 <? cch) && is_low_surrogate (src (i + 1)) then
            emit (put4 (pair_value ch (src (i + 1))))
                 (transcode fuel' strict src cch (i + 2))
          else if strict then None
          else emit REPLACEMENT (transcode fuel' strict src cch (i + 1))
        else if is_low_surrogate ch then
          if strict then None
          else emit REPLACEMENT (transcode fuel' strict src cch (i + 1))
        else
          emit (put3 ch) (transcode fuel' strict src cch (i + 1))
  end.

(** Modelled from the spec: [WideCharToMultiByte] for an explicit,
    positive input length.  A failed call returns 0; what it leaves in
    the destination is unspecified and its caller discards it.  Code
    pages other than UTF-8 and the implicit length [-1] are not used by
    the program and are reported as failures, as is a size outside the
    [int] result. *)
Definition WideCharToMultiByte_model (CodePage dwFlags : Z)
    (lpWideCharStr : Z -> wchar_t) (cchWideChar cbMultiByte : Z)
  : Z * list char :=
  if negb (CodePage =? CP_UTF8) then (0, [])
  else if cchWideChar <=? 0 then (0, [])
  else
    match transcode (Z.to_nat cchWideChar) (Z.testbit dwFlags 7)
                    lpWideCharStr cchWideChar 0 with
    | None => (0, [])
    | Some bytes =>
        let n := Z.of_nat (length bytes) in
        if INT_MAX <? n then (0, [])
        else if cbMultiByte =? 0 then (n, [])
        else if n <=? cbMultiByte then (n, bytes)
        else (0, [])
    end.

(** The Windows platform: the primitive above and the [max_size()] of
    a 64-bit [std::string]. *)
Definition platform : Platform :=
  {| sys_WideCharToMultiByte := WideCharToMultiByte_model;
     sys_max_size := 2 ^ 63 - 1 |}.

(** A platform whose conversions fail although its size queries
    succeed, as when the input changes between the two passes. *)
Definition failing_platform : Platform :=
  {| sys_WideCharToMultiByte := fun cp fl s cch cb =>
       if cb =? 0 then WideCharToMultiByte_model cp fl s cch cb else (0, []);
     sys_max_size := 2 ^ 63 - 1 |}.

End Win32.

(** ** Wide strings in memory *)

(** The memory that holds the units [l] followed by null elements. *)
Definition wstr (l : list wchar_t) : Z -> wchar_t :=
  fun i => nth (Z.to_nat i) l 0.

(** The exit taken is the one of the length-overflow guard. *)
Definition is_LengthOverflow (e : exit) : bool :=
  match e with LengthOverflow => true | _ => false end.

(** ** The conversion calls of a program *)

(** The arguments of one call of the conversion primitive. *)
Record conversion_call : Type := {
  call_CodePage : Z;
  call_dwFlags : Z;
  call_lpWideCharStr : Z -> wchar_t;
  call_cchWideChar : Z;
  call_cbMultiByte : Z
}.

(** The conversion calls a program makes on a platform, in order. *)
Fixpoint calls {A : Type} (W : Platform) (p : win A) : list conversion_call :=
  match p with
  | Return _ => []
  | WideCharToMultiByte cp fl s cch cb k =>
      let r := sys_WideCharToMultiByte W cp fl s cch cb in
      {| call_CodePage := cp; call_dwFlags := fl; call_lpWideCharStr := s;
         call_cchWideChar := cch; call_cbMultiByte := cb |}
      :: calls W (k (fst r) (snd r))
  | max_size k => calls W (k (sys_max_size W))
  end.

(** The result type of the primitive is [int]. *)
Definition ReturnsInt (W : Platform) : Prop :=
  forall cp fl s n cb,
    - 2 ^ 31 <= fst (sys_WideCharToMultiByte W cp fl s n cb) <= INT_MAX.

(** The exit taken is the one after a successful second pass. *)
Definition is_Converted (e : exit) : bool :=
  match e with Converted _ _ => true | _ => false end.

(** UTF-16 encoding of one code point. *)
Definition utf16_encode (cp : Z) : list Z :=
  if cp <? 0x10000 then [cp]
  else [0xD800 + (cp - 0x10000) / 0x400; 0xDC00 + (cp - 0x10000) mod 0x400].

(** ** [GetCommandLineArguments] *)

(** [i++] on an [int]. *)
Definition int_succ (i : Z) : Z := static_cast_int (i + 1).

(** What [::CommandLineToArgvW(::GetCommandLineW(), &argc)] hands back:
    the array [argv] of argument pointers, absent ([nullptr]) when the
    call failed, and the count it stored in [argc]. *)
Record CommandLine : Type := {
  cl_argv : option (Z -> wptr);
  cl_argc : Z
}.

(** The loop [for (int i = 1; i < argc; i++)
    command_line_arguments.push_back(Utf8FromUtf16(argv[i]))], one
    iteration per unit of fuel, from the current [i] and vector. *)
Fixpoint push_arguments (fuel : nat) (W : Platform) (argv : Z -> wptr)
    (argc i : Z) (command_line_arguments : list std_string)
  : list std_string :=
  match fuel with
  | O => command_line_arguments
  | S fuel' =>
      if i <? argc
      then push_arguments fuel' W argv argc (int_succ i)
             (command_line_arguments ++ [Utf8FromUtf16_on W (argv i)])
      else command_line_arguments
  end.

(** [std::vector<std::string> GetCommandLineArguments()], as a function
    of what the command-line call returned.  The result is the vector
    and the arrays handed to [::LocalFree].  The loop runs at most
    [argc - 1] times, which is the fuel it is given. *)
Definition GetCommandLineArguments (W : Platform) (cl : CommandLine)
  : list std_string * list (Z -> wptr) :=
  match cl_argv cl with
  | None => ([], [])
  | Some argv =>
      let command_line_arguments : list std_string := [] in
      let command_line_arguments :=
        push_arguments (Z.to_nat (cl_argc cl - 1)) W argv (cl_argc cl) 1
                       command_line_arguments in
      (command_line_arguments, [argv])
  end.

(** The array [argv] whose entries point to the strings [args], each
    held in memory as its units followed by null elements. *)
Definition argv_of (args : list (list wchar_t)) : Z -> wptr :=
  fun i => nth (Z.to_nat i) (map (fun l => ptr (wstr l)) args) nullptr.


(** ** Proof automation *)

(** Settles the integer comparisons of the goal by linear arithmetic. *)
Ltac ztest :=
  repeat match goal with
  | |- context [?a <? ?b] =>
      first [ replace (a <? b) with true by (symmetry; apply Z.ltb_lt; lia)
            | replace (a <? b) with false by (symmetry; apply Z.ltb_ge; lia) ]
  | |- context [?a <=? ?b] =>
      first [ replace (a <=? b) with true by (symmetry; apply Z.leb_le; lia)
            | replace (a <=? b) with false by (symmetry; apply Z.leb_gt; lia) ]
  end;
  cbn [andb orb negb].

(** ** Properties of the bounded scan *)

Lemma kMaxUtf16Scan_value : kMaxUtf16Scan = 1048576.
Proof. reflexivity. Qed.

Lemma size_succ_small i : 0 <= i < SIZE_MAX -> size_succ i = i + 1.
Proof.
  intros H. unfold size_succ, static_cast_size_t, SIZE_MAX in *.
  apply Z.mod_small. lia.
Qed.

(** The loop started at [i] with enough fuel to reach [max] stops at an
    index [r] between [i] and [max] such that every unit in [i, r) is
    non-null and the unit at [r] is null unless [r = max]. *)
Lemma safe_wcsnlen_loop_spec fuel s max : forall i,
  0 <= i <= max -> max <= SIZE_MAX -> max - i <= Z.of_nat fuel ->
  let r := safe_wcsnlen_loop fuel s max i in
  i <= r <= max /\
  (forall j, i <= j < r -> s j <> 0) /\
  (r < max -> s r = 0).
Proof.
  induction fuel as [|fuel IH]; intros i Hi Hmax Hfuel; cbn [safe_wcsnlen_loop].
  - cbn zeta. split; [lia|]. split; intros; lia.
  - destruct (i <? max) eqn:Hlt; cbn [andb].
    + apply Z.ltb_lt in Hlt.
      destruct (s i =? 0) eqn:Hz; cbn [negb].
      * apply Z.eqb_eq in Hz. cbn zeta.
        split; [lia|]. split; [intros; lia|intros _; exact Hz].
      * apply Z.eqb_neq in Hz.
        rewrite size_succ_small by lia.
        specialize (IH (i + 1) ltac:(lia) Hmax ltac:(lia)).
        cbn zeta in IH |- *. destruct IH as (Hr & Hnz & Hstop).
        split; [lia|]. split; [|exact Hstop].
        intros j Hj. destruct (Z.eq_dec j i) as [->|]; [exact Hz|apply Hnz; lia].
    + apply Z.ltb_ge in Hlt. cbn zeta. split; [lia|]. split; intros; lia.
Qed.

(** The loop leaves on its own condition, never for lack of fuel. *)
Lemma safe_wcsnlen_loop_exit s max :
  0 <= max <= SIZE_MAX ->
  let r := safe_wcsnlen_loop (Z.to_nat max) s max 0 in
  (r <? max) && negb (s r =? 0) = false.
Proof.
  intros Hmax r.
  destruct (safe_wcsnlen_loop_spec (Z.to_nat max) s max 0) as (Hr & _ & Hstop);
    try lia.
  fold r in Hr, Hstop.
  destruct (r <? max) eqn:Hlt; [|reflexivity].
  apply Z.ltb_lt in Hlt. rewrite (Hstop Hlt). reflexivity.
Qed.

Lemma safe_wcsnlen_ptr s max :
  0 <= max <= SIZE_MAX ->
  let n := safe_wcsnlen (ptr s) max in
  0 <= n <= max /\ (forall j, 0 <= j < n -> s j <> 0) /\ (n < max -> s n = 0).
Proof.
  intros Hmax. cbn [safe_wcsnlen].
  apply (safe_wcsnlen_loop_spec (Z.to_nat max) s max 0); lia.
Qed.

(** A terminated string shorter than the bound is measured exactly. *)
Lemma safe_wcsnlen_terminated s max L :
  0 <= max <= SIZE_MAX -> wcslen_is s L ->
  safe_wcsnlen (ptr s) max = Z.min L max.
Proof.
  intros Hmax (HL & Hnul & Hnz).
  destruct (safe_wcsnlen_ptr s max Hmax) as (Hn & Hpre & Hstop).
  set (n := safe_wcsnlen (ptr s) max) in *.
  destruct (Z.lt_trichotomy n (Z.min L max)) as [Hlt|[Heq|Hgt]].
  - exfalso. apply (Hnz n); [lia|]. apply Hstop. lia.
  - exact Heq.
  - exfalso. apply (Hpre L); [lia|exact Hnul].
Qed.

(** Without a null element below the bound the scan returns the bound. *)
Lemma safe_wcsnlen_unterminated s max :
  0 <= max <= SIZE_MAX -> (forall i, 0 <= i < max -> s i <> 0) ->
  safe_wcsnlen (ptr s) max = max.
Proof.
  intros Hmax Hnz.
  destruct (safe_wcsnlen_ptr s max Hmax) as (Hn & _ & Hstop).
  set (n := safe_wcsnlen (ptr s) max) in *.
  destruct (Z.eq_dec n max) as [|Hne]; [assumption|].
  exfalso. apply (Hnz n); [lia|]. apply Hstop. lia.
Qed.

(** The scan reads no unit at or beyond [max]. *)
Lemma safe_wcsnlen_loop_ext fuel s s' max : forall i,
  0 <= i -> max <= SIZE_MAX ->
  (forall j, i <= j < max -> s j = s' j) ->
  safe_wcsnlen_loop fuel s max i = safe_wcsnlen_loop fuel s' max i.
Proof.
  induction fuel as [|fuel IH]; intros i Hi Hmax Hagree; cbn [safe_wcsnlen_loop].
  - reflexivity.
  - destruct (i <? max) eqn:Hlt; cbn [andb]; [|reflexivity].
    apply Z.ltb_lt in Hlt. rewrite <- (Hagree i) by lia.
    destruct (s i =? 0); cbn [negb]; [reflexivity|].
    rewrite size_succ_small by lia.
    apply IH; [lia|assumption|]. intros j Hj. apply Hagree. lia.
Qed.

Lemma kMaxUtf16Scan_size : 0 <= kMaxUtf16Scan <= SIZE_MAX.
Proof. rewrite kMaxUtf16Scan_value. unfold SIZE_MAX. lia. Qed.

(** C2. For every pointer [s] and every bound [max] of type [size_t],
    [safe_wcsnlen s max] is 0 when [s] is the absent pointer; otherwise
    it is the number of elements before the first null element or [max],
    whichever is smaller ([max] when there is no null element below it).
    The result [n] always satisfies [0 <= n <= max]. *)
Theorem safe_wcsnlen_bounded_scan (p : wptr) (max : Z) :
  0 <= max <= SIZE_MAX ->
  let n := safe_wcsnlen p max in
  0 <= n <= max /\
  match p with
  | nullptr => n = 0
  | ptr s =>
      (forall L, wcslen_is s L -> n = Z.min L max) /\
      ((forall i, 0 <= i < max -> s i <> 0) -> n = max)
  end.
Proof.
  intros Hmax n. destruct p as [|s].
  - subst n. cbn. split; [lia|reflexivity].
  - split; [apply (safe_wcsnlen_ptr s max Hmax)|]. split.
    + intros L HL. apply safe_wcsnlen_terminated; assumption.
    + intros Hnz. apply safe_wcsnlen_unterminated; assumption.
Qed.

Lemma safe_wcsnlen_bounded_scan_witness :
  0 <= 2 <= SIZE_MAX /\
  0 <= safe_wcsnlen (ptr (wstr [65; 66; 67])) 2 <= 2 /\
  safe_wcsnlen (ptr (wstr [65; 66; 67])) 2 = Z.min 3 2.
Proof.
  assert (H : 0 <= 2 <= SIZE_MAX) by (unfold SIZE_MAX; lia).
  split; [exact H|].
  destruct (safe_wcsnlen_bounded_scan (ptr (wstr [65; 66; 67])) 2 H)
    as (Hrange & Hlen & _).
  split; [exact Hrange|].
  apply Hlen. split; [lia|]. split; [reflexivity|].
  intros i Hi.
  assert (Hc : i = 0 \/ i = 1 \/ i = 2) by lia.
  destruct Hc as [H0 | [H0 | H0]]; subst i; discriminate.
Defined.

(** ** Exits that make no conversion call *)

Lemma scanned_length_range (p : wptr) :
  0 <= safe_wcsnlen p kMaxUtf16Scan <= kMaxUtf16Scan.
Proof.
  apply (safe_wcsnlen_bounded_scan p kMaxUtf16Scan kMaxUtf16Scan_size).
Qed.

(** C5. For every call with the absent (null) pointer, [Utf8FromUtf16]
    returns the empty string, on any platform and without calling it. *)
Theorem Utf8FromUtf16_absent (W : Platform) :
  Utf8FromUtf16 nullptr = Return (AbsentInput, []) /\
  Utf8FromUtf16_on W nullptr = [].
Proof. split; reflexivity. Qed.

(** C6. For every input whose bounded scanned length is 0,
    [Utf8FromUtf16] returns the empty string (0 bytes) and makes no
    conversion call. *)
Theorem Utf8FromUtf16_zero_length (W : Platform) (p : wptr) :
  safe_wcsnlen p kMaxUtf16Scan = 0 ->
  Utf8FromUtf16_on W p = [] /\
  length (Utf8FromUtf16_on W p) = 0%nat /\
  conversions W (Utf8FromUtf16 p) = 0%nat.
Proof.
  intros Hlen. unfold Utf8FromUtf16_on, Utf8FromUtf16.
  destruct p as [|s]; [repeat split|].
  rewrite Hlen. cbn. repeat split.
Qed.

(** The input that consists of a single null element. *)
Lemma Utf8FromUtf16_zero_length_witness :
  safe_wcsnlen (ptr (wstr [0])) kMaxUtf16Scan = 0 /\
  Utf8FromUtf16_on Win32.platform (ptr (wstr [0])) = [] /\
  length (Utf8FromUtf16_on Win32.platform (ptr (wstr [0]))) = 0%nat /\
  conversions Win32.platform (Utf8FromUtf16 (ptr (wstr [0]))) = 0%nat.
Proof.
  assert (H : safe_wcsnlen (ptr (wstr [0])) kMaxUtf16Scan = 0)
    by (vm_compute; reflexivity).
  split; [exact H|].
  exact (Utf8FromUtf16_zero_length Win32.platform (ptr (wstr [0])) H).
Defined.

(** C3. For every wide-character sequence with no null element within
    its first [kMaxUtf16Scan] (1,048,576) elements, [Utf8FromUtf16]
    returns the empty string through the exit for unterminated input,
    without a conversion call. *)
Theorem Utf8FromUtf16_unterminated (W : Platform) (s : Z -> wchar_t) :
  (forall i, 0 <= i < kMaxUtf16Scan -> s i <> 0) ->
  kMaxUtf16Scan = 1048576 /\
  Utf8FromUtf16 (ptr s) = Return (Unterminated, []) /\
  Utf8FromUtf16_on W (ptr s) = [] /\
  conversions W (Utf8FromUtf16 (ptr s)) = 0%nat.
Proof.
  intros Hnz. split; [reflexivity|].
  assert (Hprog : Utf8FromUtf16 (ptr s) = Return (Unterminated, [])).
  { unfold Utf8FromUtf16.
    rewrite (safe_wcsnlen_unterminated s kMaxUtf16Scan kMaxUtf16Scan_size Hnz).
    reflexivity. }
  split; [exact Hprog|].
  unfold Utf8FromUtf16_on. rewrite Hprog. split; reflexivity.
Qed.

Lemma Utf8FromUtf16_unterminated_witness :
  Utf8FromUtf16_on Win32.platform (ptr (fun _ => 65)) = [] /\
  conversions Win32.platform (Utf8FromUtf16 (ptr (fun _ => 65))) = 0%nat.
Proof.
  apply (Utf8FromUtf16_unterminated Win32.platform (fun _ => 65)).
  intros i _. discriminate.
Defined.

(** The scanned length passes the overflow guard and survives the cast. *)
Lemma scanned_length_fits_int (p : wptr) :
  let wlen := safe_wcsnlen p kMaxUtf16Scan in
  (wlen >? static_cast_size_t INT_MAX) = false /\
  static_cast_int wlen = wlen.
Proof.
  intros wlen.
  pose proof (scanned_length_range p) as Hrange. fold wlen in Hrange.
  rewrite kMaxUtf16Scan_value in Hrange. split.
  - unfold static_cast_size_t, INT_MAX. rewrite Z.mod_small by lia.
    rewrite Z.gtb_ltb. apply Z.ltb_ge. lia.
  - unfold static_cast_int. rewrite Z.mod_small by lia. lia.
Qed.

(** C10. The length-overflow guard of [Utf8FromUtf16] is unreachable:
    for every input the scanned length [wlen] is at most
    [kMaxUtf16Scan = 2^20]; a call that gets past the two earlier checks
    has [0 < wlen < 2^20], below the [int] maximum; so the guard's
    condition is false, the LengthOverflow exit is never taken, and the
    cast of [wlen] to [int] does not change its value. *)
Theorem Utf8FromUtf16_length_guard_unreachable (W : Platform) (p : wptr) :
  let wlen := safe_wcsnlen p kMaxUtf16Scan in
  kMaxUtf16Scan = 2 ^ 20 /\
  0 <= wlen <= kMaxUtf16Scan /\
  (wlen = 0 \/ wlen = kMaxUtf16Scan \/ 0 < wlen < 2 ^ 20) /\
  kMaxUtf16Scan < INT_MAX /\
  (wlen >? static_cast_size_t INT_MAX) = false /\
  static_cast_int wlen = wlen /\
  is_LengthOverflow (fst (exec W (Utf8FromUtf16 p))) = false.
Proof.
  intros wlen.
  pose proof (scanned_length_range p) as Hrange. fold wlen in Hrange.
  rewrite kMaxUtf16Scan_value in *.
  assert (Hguard : (wlen >? static_cast_size_t INT_MAX) = false).
  { unfold static_cast_size_t, INT_MAX. rewrite Z.mod_small by lia.
    rewrite Z.gtb_ltb. apply Z.ltb_ge. lia. }
  split; [reflexivity|]. split; [exact Hrange|]. split; [lia|].
  split; [unfold INT_MAX; lia|]. split; [exact Hguard|].
  split.
  - unfold static_cast_int. rewrite Z.mod_small by lia. lia.
  - unfold Utf8FromUtf16. destruct p as [|s]; [reflexivity|].
    fold wlen. rewrite Hguard.
    destruct (wlen =? 0); [reflexivity|].
    destruct (wlen =? kMaxUtf16Scan); [reflexivity|].
    cbn [exec].
    destruct (fst (sys_WideCharToMultiByte W CP_UTF8 WC_ERR_INVALID_CHARS s
                     (static_cast_int wlen) 0) <=? 0); [reflexivity|].
    cbn [exec].
    destruct (static_cast_size_t _ >? sys_max_size W); [reflexivity|].
    cbn [exec].
    destruct (fst _ =? 0); reflexivity.
Qed.

(** ** The two conversion passes *)

Lemma resize_empty_length n : length (resize [] n) = Z.to_nat n.
Proof.
  unfold resize. rewrite firstn_nil. cbn [app length].
  rewrite repeat_length. lia.
Qed.

(** Storing into a buffer keeps its size. *)
Lemma store_length buf written : length (store buf written) = length buf.
Proof.
  unfold store. rewrite length_firstn, length_app, length_skipn. lia.
Qed.

(** Storing as many bytes as the buffer holds replaces its contents. *)
Lemma store_full buf written :
  length written = length buf -> store buf written = written.
Proof.
  intros Hlen. unfold store.
  rewrite skipn_all2 by lia. rewrite app_nil_r.
  rewrite <- Hlen. apply firstn_all.
Qed.

(** What [Utf8FromUtf16] does once the scanned length has passed the
    three length checks: the size query, the size check, the conversion
    and the final test, in terms of the platform's answers. *)
Lemma Utf8FromUtf16_passes (W : Platform) (s : Z -> wchar_t) :
  let wlen := safe_wcsnlen (ptr s) kMaxUtf16Scan in
  0 < wlen < kMaxUtf16Scan ->
  exec W (Utf8FromUtf16 (ptr s)) =
  let query := sys_WideCharToMultiByte W CP_UTF8 WC_ERR_INVALID_CHARS s wlen 0 in
  let target_length := fst query in
  if (target_length <=? 0)
     || (static_cast_size_t target_length >? sys_max_size W)
  then (SizeQueryFailed target_length, [])
  else
    let conv := sys_WideCharToMultiByte W CP_UTF8 WC_ERR_INVALID_CHARS s wlen
                  target_length in
    if fst conv =? 0 then (ConversionFailed target_length, [])
    else (Converted target_length (fst conv),
          store (resize [] (static_cast_size_t target_length)) (snd conv)).
Proof.
  intros wlen Hlen.
  destruct (scanned_length_fits_int (ptr s))
    as (Hguard & Hcast).
  fold wlen in Hguard, Hcast.
  unfold Utf8FromUtf16. fold wlen.
  rewrite Hguard, Hcast.
  destruct (wlen =? 0) eqn:H0; [apply Z.eqb_eq in H0; lia|].
  destruct (wlen =? kMaxUtf16Scan) eqn:H1; [apply Z.eqb_eq in H1; lia|].
  cbn [exec]. cbn zeta.
  destruct (fst _ <=? 0); cbn [orb exec]; [reflexivity|].
  destruct (static_cast_size_t _ >? sys_max_size W); cbn [exec]; [reflexivity|].
  destruct (fst _ =? 0); reflexivity.
Qed.

(** The three ways a call with a present pointer can go. *)
Lemma Utf8FromUtf16_cases (W : Platform) (s : Z -> wchar_t) :
  let wlen := safe_wcsnlen (ptr s) kMaxUtf16Scan in
  (wlen = 0 /\ Utf8FromUtf16 (ptr s) = Return (EmptyInput, [])) \/
  (wlen = kMaxUtf16Scan /\ Utf8FromUtf16 (ptr s) = Return (Unterminated, [])) \/
  (0 < wlen < kMaxUtf16Scan).
Proof.
  intros wlen.
  pose proof (scanned_length_range (ptr s)) as Hrange. fold wlen in Hrange.
  destruct (Z.eq_dec wlen 0) as [H0|H0].
  { left. split; [exact H0|]. unfold Utf8FromUtf16. fold wlen.
    rewrite H0. reflexivity. }
  destruct (Z.eq_dec wlen kMaxUtf16Scan) as [H1|H1].
  { right. left. split; [exact H1|]. unfold Utf8FromUtf16. fold wlen.
    rewrite H1. reflexivity. }
  right. right. lia.
Qed.

(** X16. On any platform, a converted result has the size the first
    pass asked for, which is positive: the buffer is resized once, before
    the second pass, and the count the second pass reports (nonzero) does
    not resize it. *)
Lemma Utf8FromUtf16_sized_to_query
    (W : Platform) (p : wptr) (t c : Z) (r : list char) :
  exec W (Utf8FromUtf16 p) = (Converted t c, r) ->
  0 < t /\ c <> 0 /\ length r = Z.to_nat (static_cast_size_t t).
Proof.
  intros Hrun.
  destruct p as [|s]; [discriminate|].
  destruct (Utf8FromUtf16_cases W s) as [[_ Hp]|[[_ Hp]|Hlen]];
    try (rewrite Hp in Hrun; discriminate).
  rewrite (Utf8FromUtf16_passes W s Hlen) in Hrun. cbv zeta in Hrun.
  remember (safe_wcsnlen (ptr s) kMaxUtf16Scan) as wlen eqn:Hw. clear Hw Hlen.
  remember (fst (sys_WideCharToMultiByte W CP_UTF8 WC_ERR_INVALID_CHARS s wlen 0))
    as t' eqn:Hq. clear Hq.
  destruct (t' <=? 0) eqn:Ht; cbn [orb] in Hrun; [discriminate|].
  apply Z.leb_gt in Ht.
  destruct (static_cast_size_t t' >? sys_max_size W); [discriminate|].
  destruct (fst (sys_WideCharToMultiByte W CP_UTF8 WC_ERR_INVALID_CHARS s wlen t')
            =? 0) eqn:Hc; inversion Hrun; subst.
  apply Z.eqb_neq in Hc.
  split; [exact Ht|]. split; [exact Hc|].
  rewrite store_length. apply resize_empty_length.
Qed.

(** When the size query of the primitive is exact, the size of a
    converted result is also the number of bytes the second pass reports
    written.  The code itself does not compare the two counts. *)
Lemma Utf8FromUtf16_sized_to_bytes_written
    (W : Platform) (p : wptr) (e : exit) (r : std_string) :
  SizeQueryExact W ->
  exec W (Utf8FromUtf16 p) = (e, r) ->
  match e with
  | Converted target_length converted_length =>
      converted_length <> 0 /\ Z.of_nat (length r) = converted_length
  | ConversionFailed target_length => r = []
  | _ => True
  end.
Proof.
  intros [Hint Hexact] Hrun.
  destruct p as [|s]; [inversion Hrun; exact I|].
  destruct (Utf8FromUtf16_cases W s) as [[_ Hp]|[[_ Hp]|Hlen]];
    try (rewrite Hp in Hrun; inversion Hrun; exact I).
  rewrite (Utf8FromUtf16_passes W s Hlen) in Hrun. cbv zeta in Hrun.
  remember (safe_wcsnlen (ptr s) kMaxUtf16Scan) as wlen eqn:Hw. clear Hw Hlen.
  pose proof (Hint CP_UTF8 WC_ERR_INVALID_CHARS s wlen 0) as Ht_int.
  pose proof (Hexact CP_UTF8 WC_ERR_INVALID_CHARS s wlen) as Hsame.
  cbv zeta in Hsame.
  remember (fst (sys_WideCharToMultiByte W CP_UTF8 WC_ERR_INVALID_CHARS s wlen 0))
    as t eqn:Hq. clear Hq.
  destruct (t <=? 0) eqn:Ht; cbn [orb] in Hrun; [inversion Hrun; exact I|].
  apply Z.leb_gt in Ht.
  destruct (static_cast_size_t t >? sys_max_size W);
    [inversion Hrun; exact I|].
  destruct (fst (sys_WideCharToMultiByte W CP_UTF8 WC_ERR_INVALID_CHARS s wlen t)
            =? 0) eqn:Hc; inversion Hrun; subst e r; [reflexivity|].
  apply Z.eqb_neq in Hc. split; [exact Hc|].
  rewrite store_length, resize_empty_length.
  unfold static_cast_size_t. rewrite Z.mod_small by (unfold INT_MAX in *; lia).
  rewrite Z2Nat.id by lia. symmetry. apply Hsame; assumption.
Qed.

(** ** Bit operations of the encoder *)

Lemma lor_disjoint_add (a b k : Z) :
  0 <= k -> 0 <= b < 2 ^ k -> Z.lor (a * 2 ^ k) b = a * 2 ^ k + b.
Proof.
  intros Hk Hb.
  assert (Hland : Z.land (a * 2 ^ k) b = 0).
  { apply Z.bits_inj'. intros n Hn. rewrite Z.land_spec, Z.bits_0.
    destruct (Z.lt_ge_cases n k) as [Hlt|Hge].
    - rewrite Z.mul_pow2_bits_low by lia. reflexivity.
    - destruct (Z.eq_dec b 0) as [->|Hnz].
      + rewrite Z.bits_0. apply andb_false_r.
      + rewrite (Z.bits_above_log2 b n); [apply andb_false_r|lia|].
        apply Z.log2_lt_pow2; [lia|].
        apply Z.lt_le_trans with (2 ^ k); [lia|].
        apply Z.pow_le_mono_r; lia. }
  rewrite <- Z.lxor_lor by exact Hland.
  symmetry. apply Z.add_nocarry_lxor. exact Hland.
Qed.

Lemma land_low6 c : Z.land c 0x3F = c mod 64.
Proof. change 0x3F with (Z.ones 6). rewrite Z.land_ones by lia. reflexivity. Qed.

Lemma land_low10 c : Z.land c 0x3FF = c mod 1024.
Proof. change 0x3FF with (Z.ones 10). rewrite Z.land_ones by lia. reflexivity. Qed.

Lemma shiftr_div c k : 0 <= k -> Z.shiftr c k = c / 2 ^ k.
Proof. intros Hk. apply Z.shiftr_div_pow2. exact Hk. Qed.

Lemma continuation_byte c : Z.lor 0x80 (Z.land c 0x3F) = 0x80 + c mod 64.
Proof.
  rewrite land_low6.
  change 0x80 with (1 * 2 ^ 7). apply lor_disjoint_add; [lia|].
  pose proof (Z.mod_pos_bound c 64 ltac:(lia)). lia.
Qed.

Lemma put2_encode c :
  0x80 <= c < 0x800 -> Win32.put2 c = utf8_encode c.
Proof.
  intros Hc. unfold Win32.put2, utf8_encode.
  destruct (c <? 0x80) eqn:H1; [apply Z.ltb_lt in H1; lia|].
  destruct (c <? 0x800) eqn:H2; [|apply Z.ltb_ge in H2; lia].
  rewrite continuation_byte, shiftr_div by lia.
  change 0xC0 with (3 * 2 ^ 6). rewrite lor_disjoint_add; [reflexivity|lia|].
  change (2 ^ 6) with 64. split.
  - apply Z.div_pos; lia.
  - apply Z.div_lt_upper_bound; lia.
Qed.

Lemma put3_encode c :
  0x800 <= c < 0x10000 -> Win32.put3 c = utf8_encode c.
Proof.
  intros Hc. unfold Win32.put3, utf8_encode.
  destruct (c <? 0x80) eqn:H1; [apply Z.ltb_lt in H1; lia|].
  destruct (c <? 0x800) eqn:H2; [apply Z.ltb_lt in H2; lia|].
  destruct (c <? 0x10000) eqn:H3; [|apply Z.ltb_ge in H3; lia].
  rewrite !continuation_byte, !shiftr_div by lia.
  change 0xE0 with (7 * 2 ^ 5). rewrite lor_disjoint_add; [reflexivity|lia|].
  change (2 ^ 12) with 4096. change (2 ^ 5) with 32. split.
  - apply Z.div_pos; lia.
  - apply Z.div_lt_upper_bound; lia.
Qed.

Lemma put4_encode c :
  0x10000 <= c < 0x200000 -> Win32.put4 c = utf8_encode c.
Proof.
  intros Hc. unfold Win32.put4, utf8_encode.
  destruct (c <? 0x80) eqn:H1; [apply Z.ltb_lt in H1; lia|].
  destruct (c <? 0x800) eqn:H2; [apply Z.ltb_lt in H2; lia|].
  destruct (c <? 0x10000) eqn:H3; [apply Z.ltb_lt in H3; lia|].
  rewrite !continuation_byte, !shiftr_div by lia.
  change 0xF0 with (15 * 2 ^ 4). rewrite lor_disjoint_add; [reflexivity|lia|].
  change (2 ^ 18) with 262144. change (2 ^ 4) with 16. split.
  - apply Z.div_pos; lia.
  - apply Z.div_lt_upper_bound; lia.
Qed.

Lemma high_surrogate_range u :
  is_high_surrogate u = true -> 0xD800 <= u <= 0xDBFF.
Proof. unfold is_high_surrogate. intros H. apply andb_prop in H. lia. Qed.

Lemma low_surrogate_range u :
  is_low_surrogate u = true -> 0xDC00 <= u <= 0xDFFF.
Proof. unfold is_low_surrogate. intros H. apply andb_prop in H. lia. Qed.

Lemma high_not_low u : is_high_surrogate u = true -> is_low_surrogate u = false.
Proof.
  intros H. apply high_surrogate_range in H. unfold is_low_surrogate.
  apply andb_false_iff. left. apply Z.leb_gt. lia.
Qed.

Lemma low_not_high u : is_low_surrogate u = true -> is_high_surrogate u = false.
Proof.
  intros H. apply low_surrogate_range in H. unfold is_high_surrogate.
  apply andb_false_iff. right. apply Z.leb_gt. lia.
Qed.

Lemma pair_value_surrogate_pair hi lo :
  is_high_surrogate hi = true -> is_low_surrogate lo = true ->
  Win32.pair_value hi lo = surrogate_pair hi lo /\
  0x10000 <= surrogate_pair hi lo <= 0x10FFFF.
Proof.
  intros Hhi Hlo.
  apply high_surrogate_range in Hhi. apply low_surrogate_range in Hlo.
  unfold Win32.pair_value, surrogate_pair.
  rewrite !land_low10, Z.shiftl_mul_pow2 by lia. change (2 ^ 10) with 1024.
  assert (Hh : hi mod 1024 = hi - 0xD800).
  { symmetry. apply (Z.mod_unique hi 1024 54); lia. }
  assert (Hl : lo mod 1024 = lo - 0xDC00).
  { symmetry. apply (Z.mod_unique lo 1024 55); lia. }
  rewrite Hh, Hl. lia.
Qed.

(** ** Reading code units from memory *)

Lemma wcs_from_S s i n : wcs_from s i (S n) = s i :: wcs_from s (i + 1) n.
Proof.
  unfold wcs_from. cbn [seq map]. rewrite Z.add_0_r. f_equal.
  rewrite <- seq_shift, map_map. apply map_ext.
  intros k. f_equal. lia.
Qed.

Lemma wcs_length s n : length (wcs s n) = Z.to_nat n.
Proof. unfold wcs. rewrite length_map, length_seq. reflexivity. Qed.

(** The remaining units [s[i] .. s[cch-1]] of a conversion. *)
Lemma remaining_units s cch i :
  i < cch ->
  wcs_from s i (Z.to_nat (cch - i))
  = s i :: wcs_from s (i + 1) (Z.to_nat (cch - (i + 1))).
Proof.
  intros Hlt.
  replace (Z.to_nat (cch - i)) with (S (Z.to_nat (cch - (i + 1)))) by lia.
  apply wcs_from_S.
Qed.

(** ** The standard encoding, unit by unit *)

Lemma utf8_of_utf16_bmp u rest :
  is_high_surrogate u = false -> is_low_surrogate u = false ->
  utf8_of_utf16 (u :: rest)
  = Win32.emit (utf8_encode u) (utf8_of_utf16 rest).
Proof.
  intros Hh Hl. unfold utf8_of_utf16, Win32.emit. cbn [utf16_decode].
  rewrite Hh, Hl. destruct (utf16_decode rest); reflexivity.
Qed.

Lemma utf8_of_utf16_pair hi lo rest :
  is_high_surrogate hi = true -> is_low_surrogate lo = true ->
  utf8_of_utf16 (hi :: lo :: rest)
  = Win32.emit (utf8_encode (surrogate_pair hi lo)) (utf8_of_utf16 rest).
Proof.
  intros Hh Hl. unfold utf8_of_utf16, Win32.emit. cbn [utf16_decode].
  rewrite Hh, Hl. destruct (utf16_decode rest); reflexivity.
Qed.

Lemma utf8_of_utf16_lone_high hi rest :
  is_high_surrogate hi = true ->
  match rest with lo :: _ => is_low_surrogate lo | [] => false end = false ->
  utf8_of_utf16 (hi :: rest) = None.
Proof.
  intros Hh Hl. unfold utf8_of_utf16. cbn [utf16_decode]. rewrite Hh.
  destruct rest as [|lo rest]; [reflexivity|]. rewrite Hl. reflexivity.
Qed.

Lemma utf8_of_utf16_lone_low lo rest :
  is_high_surrogate lo = false -> is_low_surrogate lo = true ->
  utf8_of_utf16 (lo :: rest) = None.
Proof.
  intros Hh Hl. unfold utf8_of_utf16. cbn [utf16_decode].
  rewrite Hh, Hl. reflexivity.
Qed.

Lemma not_surrogate_below_0x800 u :
  u < 0x800 -> is_high_surrogate u = false /\ is_low_surrogate u = false.
Proof.
  intros Hu. unfold is_high_surrogate, is_low_surrogate.
  split; apply andb_false_iff; left; apply Z.leb_gt; lia.
Qed.

(** ** The model of the primitive meets the contract *)

(** Strict conversion of in-range units computes the standard encoding. *)
Lemma transcode_strict_standard fuel s cch : forall i,
  cch - i <= Z.of_nat fuel ->
  (forall j, i <= j < cch -> 0 <= s j <= WCHAR_MAX) ->
  Win32.transcode fuel true s cch i
  = utf8_of_utf16 (wcs_from s i (Z.to_nat (cch - i))).
Proof.
  induction fuel as [|fuel IH]; intros i Hfuel Hrange; cbn [Win32.transcode].
  - replace (Z.to_nat (cch - i)) with O by lia. reflexivity.
  - destruct (cch <=? i) eqn:Hend.
    { apply Z.leb_le in Hend.
      replace (Z.to_nat (cch - i)) with O by lia. reflexivity. }
    apply Z.leb_gt in Hend. cbv zeta.
    rewrite (remaining_units s cch i Hend).
    assert (Hnext : Win32.transcode fuel true s cch (i + 1)
                    = utf8_of_utf16 (wcs_from s (i + 1) (Z.to_nat (cch - (i + 1))))).
    { apply IH; [lia|]. intros j Hj. apply Hrange. lia. }
    pose proof (Hrange i ltac:(lia)) as Hch. unfold WCHAR_MAX in Hch.
    destruct (s i <? 0x80) eqn:H1.
    { apply Z.ltb_lt in H1.
      destruct (not_surrogate_below_0x800 (s i)) as [Hh Hl]; [lia|].
      rewrite utf8_of_utf16_bmp, Hnext by assumption.
      unfold utf8_encode. rewrite (proj2 (Z.ltb_lt _ _) H1). reflexivity. }
    apply Z.ltb_ge in H1.
    destruct (s i <? 0x800) eqn:H2.
    { apply Z.ltb_lt in H2.
      destruct (not_surrogate_below_0x800 (s i)) as [Hh Hl]; [lia|].
      rewrite utf8_of_utf16_bmp, Hnext, put2_encode by (assumption || lia).
      reflexivity. }
    apply Z.ltb_ge in H2.
    destruct (is_high_surrogate (s i)) eqn:Hh.
    { destruct (i + 1 <? cch) eqn:Hmore; cbn [andb].
      - apply Z.ltb_lt in Hmore.
        rewrite (remaining_units s cch (i + 1) Hmore).
        destruct (is_low_surrogate (s (i + 1))) eqn:Hl.
        + destruct (pair_value_surrogate_pair _ _ Hh Hl) as [Hv Hvr].
          rewrite utf8_of_utf16_pair, Hv, put4_encode by (assumption || lia).
          rewrite IH; [|lia|intros j Hj; apply Hrange; lia].
          replace (i + 1 + 1) with (i + 2) by lia. reflexivity.
        + rewrite utf8_of_utf16_lone_high; [reflexivity|assumption|assumption].
      - apply Z.ltb_ge in Hmore.
        replace (Z.to_nat (cch - (i + 1))) with O by lia.
        rewrite utf8_of_utf16_lone_high; [reflexivity|assumption|reflexivity]. }
    destruct (is_low_surrogate (s i)) eqn:Hl.
    { rewrite utf8_of_utf16_lone_low by assumption. reflexivity. }
    rewrite utf8_of_utf16_bmp, Hnext, put3_encode by (assumption || lia).
    reflexivity.
Qed.

Lemma emit_none bytes rest : Win32.emit bytes rest = None -> rest = None.
Proof. destruct rest; [discriminate|reflexivity]. Qed.

(** Strict conversion fails on ill-formed UTF-16, whatever the units. *)
Lemma transcode_strict_rejects fuel s cch : forall i,
  cch - i <= Z.of_nat fuel ->
  utf8_of_utf16 (wcs_from s i (Z.to_nat (cch - i))) = None ->
  Win32.transcode fuel true s cch i = None.
Proof.
  induction fuel as [|fuel IH]; intros i Hfuel Hbad; cbn [Win32.transcode].
  - replace (Z.to_nat (cch - i)) with O in Hbad by lia. discriminate.
  - destruct (cch <=? i) eqn:Hend.
    { apply Z.leb_le in Hend.
      replace (Z.to_nat (cch - i)) with O in Hbad by lia. discriminate. }
    apply Z.leb_gt in Hend. cbv zeta.
    rewrite (remaining_units s cch i Hend) in Hbad.
    assert (Hnext :
      utf8_of_utf16 (wcs_from s (i + 1) (Z.to_nat (cch - (i + 1)))) = None ->
      Win32.transcode fuel true s cch (i + 1) = None).
    { intros Hnone. apply IH; [lia|exact Hnone]. }
    destruct (s i <? 0x80) eqn:H1.
    { apply Z.ltb_lt in H1.
      destruct (not_surrogate_below_0x800 (s i)) as [Hh Hl]; [lia|].
      rewrite utf8_of_utf16_bmp in Hbad by assumption.
      apply emit_none in Hbad. rewrite (Hnext Hbad). reflexivity. }
    destruct (s i <? 0x800) eqn:H2.
    { apply Z.ltb_lt in H2.
      destruct (not_surrogate_below_0x800 (s i)) as [Hh Hl]; [lia|].
      rewrite utf8_of_utf16_bmp in Hbad by assumption.
      apply emit_none in Hbad. rewrite (Hnext Hbad). reflexivity. }
    destruct (is_high_surrogate (s i)) eqn:Hh.
    { destruct (i + 1 <? cch) eqn:Hmore; cbn [andb]; [|reflexivity].
      apply Z.ltb_lt in Hmore.
      destruct (is_low_surrogate (s (i + 1))) eqn:Hl; [|reflexivity].
      rewrite (remaining_units s cch (i + 1) Hmore) in Hbad.
      rewrite utf8_of_utf16_pair in Hbad by assumption.
      replace (i + 1 + 1) with (i + 2) in Hbad by lia.
      apply emit_none in Hbad.
      rewrite (IH (i + 2) ltac:(lia) Hbad). reflexivity. }
    destruct (is_low_surrogate (s i)) eqn:Hl; [reflexivity|].
    rewrite utf8_of_utf16_bmp in Hbad by assumption.
    apply emit_none in Hbad. rewrite (Hnext Hbad). reflexivity.
Qed.

(** The conversion reads the units below [cch] and nothing else. *)
Lemma transcode_ext fuel strict s s' cch : forall i,
  (forall j, i <= j < cch -> s j = s' j) ->
  Win32.transcode fuel strict s cch i = Win32.transcode fuel strict s' cch i.
Proof.
  induction fuel as [|fuel IH]; intros i Hagree; cbn [Win32.transcode].
  - reflexivity.
  - destruct (cch <=? i) eqn:Hend; [reflexivity|].
    apply Z.leb_gt in Hend. cbv zeta.
    rewrite <- (Hagree i) by lia.
    assert (Hnext : forall k, i < k ->
      Win32.transcode fuel strict s cch k = Win32.transcode fuel strict s' cch k).
    { intros k Hk. apply IH. intros j Hj. apply Hagree. lia. }
    rewrite (Hnext (i + 1)) by lia.
    destruct (i + 1 <? cch) eqn:Hmore.
    + apply Z.ltb_lt in Hmore. rewrite <- (Hagree (i + 1)) by lia.
      rewrite (Hnext (i + 2)) by lia. reflexivity.
    + cbn [andb]. reflexivity.
Qed.

(** A strict UTF-8 call of the model with an explicit positive length. *)
Lemma win32_strict_call s n cb :
  0 < n ->
  Win32.WideCharToMultiByte_model CP_UTF8 WC_ERR_INVALID_CHARS s n cb
  = match Win32.transcode (Z.to_nat n) true s n 0 with
    | None => (0, [])
    | Some bytes =>
        let len := Z.of_nat (length bytes) in
        if INT_MAX <? len then (0, [])
        else if cb =? 0 then (len, [])
        else if len <=? cb then (len, bytes)
        else (0, [])
    end.
Proof.
  intros Hn. unfold Win32.WideCharToMultiByte_model.
  rewrite Z.eqb_refl. cbn [negb].
  destruct (n <=? 0) eqn:Hle; [apply Z.leb_le in Hle; lia|].
  reflexivity.
Qed.

Lemma win32_transcode_standard s n :
  wchars s n ->
  Win32.transcode (Z.to_nat n) true s n 0 = utf8_of_utf16 (wcs s n).
Proof.
  intros Hrange. rewrite transcode_strict_standard.
  - rewrite Z.sub_0_r. reflexivity.
  - lia.
  - intros j Hj. apply Hrange. exact Hj.
Qed.

Lemma win32_strict_utf8 : StrictUtf8 Win32.platform.
Proof.
  constructor; cbn [sys_WideCharToMultiByte sys_max_size Win32.platform].
  - intros s n bytes Hn Hrange Henc Hlen.
    rewrite win32_strict_call, win32_transcode_standard, Henc by assumption.
    cbv zeta. destruct (INT_MAX <? _) eqn:Hbig;
      [apply Z.ltb_lt in Hbig; lia|reflexivity].
  - intros s n bytes cb Hn Hrange Henc Hlen Hcb.
    rewrite win32_strict_call, win32_transcode_standard, Henc by assumption.
    cbv zeta. destruct (INT_MAX <? _) eqn:Hbig; [apply Z.ltb_lt in Hbig; lia|].
    destruct (cb =? 0) eqn:H0; [apply Z.eqb_eq in H0; lia|].
    destruct (_ <=? cb) eqn:Hfit; [reflexivity|apply Z.leb_gt in Hfit; lia].
  - intros s n cb Hn Hcb Hbad.
    rewrite win32_strict_call by assumption.
    rewrite transcode_strict_rejects; [reflexivity|lia|].
    rewrite Z.sub_0_r. exact Hbad.
  - unfold INT_MAX, SIZE_MAX. lia.
Qed.

Lemma win32_result s cp fl n cb :
  let r := Win32.WideCharToMultiByte_model cp fl s n cb in
  r = (0, []) \/
  exists bytes,
    Win32.transcode (Z.to_nat n) (Z.testbit fl 7) s n 0 = Some bytes /\
    Z.of_nat (length bytes) <= INT_MAX /\
    ((cb = 0 /\ r = (Z.of_nat (length bytes), [])) \/
     (cb <> 0 /\ Z.of_nat (length bytes) <= cb /\
      r = (Z.of_nat (length bytes), bytes))).
Proof.
  unfold Win32.WideCharToMultiByte_model.
  destruct (negb (cp =? CP_UTF8)); [left; reflexivity|].
  destruct (n <=? 0); [left; reflexivity|].
  destruct (Win32.transcode _ _ _ _ _) as [bytes|]; [|left; reflexivity].
  cbv zeta.
  destruct (INT_MAX <? _) eqn:Hbig; [left; reflexivity|].
  apply Z.ltb_ge in Hbig.
  destruct (cb =? 0) eqn:H0.
  { apply Z.eqb_eq in H0. right. exists bytes.
    split; [reflexivity|]. split; [exact Hbig|]. left. split; [exact H0|reflexivity]. }
  apply Z.eqb_neq in H0.
  destruct (_ <=? cb) eqn:Hfit; [|left; reflexivity].
  apply Z.leb_le in Hfit. right. exists bytes.
  split; [reflexivity|]. split; [exact Hbig|]. right.
  split; [exact H0|]. split; [exact Hfit|reflexivity].
Qed.

Lemma win32_size_query_exact : SizeQueryExact Win32.platform.
Proof.
  constructor; cbn [sys_WideCharToMultiByte Win32.platform].
  - intros cp fl s n cb.
    destruct (win32_result s cp fl n cb) as [Hr|(bytes & _ & Hlen & [[_ Hr]|(_ & _ & Hr)])];
      rewrite Hr; cbn [fst]; unfold INT_MAX in *; lia.
  - intros cp fl s n. cbv zeta. intros Ht Hc.
    destruct (win32_result s cp fl n 0) as [Hr|(bytes & Hb & Hlen & [[_ Hr]|(Hcb & _)])];
      [rewrite Hr in Ht; cbn [fst] in Ht; lia| |lia].
    rewrite Hr in Ht, Hc |- *. cbn [fst] in Ht, Hc |- *.
    destruct (win32_result s cp fl n (Z.of_nat (length bytes)))
      as [Hr'|(bytes' & Hb' & _ & [[Hcb' _]|(_ & _ & Hr')])];
      [rewrite Hr' in Hc; cbn [fst] in Hc; lia|lia|].
    rewrite Hr'. cbn [fst].
    rewrite Hb in Hb'. inversion Hb'. reflexivity.
Qed.

Lemma win32_reads_only_input : ReadsOnlyInput Win32.platform.
Proof.
  intros cp fl s s' n cb Hagree.
  cbn [sys_WideCharToMultiByte Win32.platform].
  unfold Win32.WideCharToMultiByte_model.
  rewrite (transcode_ext _ _ s s' n 0 Hagree). reflexivity.
Qed.

(** The size query of the failing platform is exact as well: its
    conversions never report a nonzero count. *)
Lemma failing_platform_size_query_exact : SizeQueryExact Win32.failing_platform.
Proof.
  constructor; cbn [sys_WideCharToMultiByte Win32.failing_platform].
  - intros cp fl s n cb. destruct (cb =? 0).
    + apply (wc_int _ win32_size_query_exact).
    + cbn [fst]. unfold INT_MAX. lia.
  - intros cp fl s n. cbv zeta. rewrite Z.eqb_refl. intros Ht Hc.
    destruct (_ =? 0) eqn:H0 in Hc; [apply Z.eqb_eq in H0; lia|].
    cbn [fst] in Hc. contradiction.
Qed.

(** ** Well-formed UTF-16: no unpaired surrogate *)

Lemma unpaired_nil i : unpaired [] i = false.
Proof. unfold unpaired. destruct i; reflexivity. Qed.

Lemma unpaired_head u rest :
  unpaired (u :: rest) 0
  = (is_high_surrogate u
     && negb match rest with v :: _ => is_low_surrogate v | [] => false end)
    || is_low_surrogate u.
Proof.
  unfold unpaired. cbn [nth_error negb]. rewrite andb_true_r.
  destruct rest; reflexivity.
Qed.

(** Positions beyond the second see the same neighbours in the tail. *)
Lemma unpaired_tail u rest i :
  unpaired (u :: rest) (S (S i)) = unpaired rest (S i).
Proof. reflexivity. Qed.

(** So does the second position, when the first unit is no high
    surrogate. *)
Lemma unpaired_second u rest :
  is_high_surrogate u = false ->
  unpaired (u :: rest) 1 = unpaired rest 0.
Proof.
  intros Hu. unfold unpaired. cbn [nth_error]. rewrite Hu. reflexivity.
Qed.

Lemma unpaired_cons u rest i :
  is_high_surrogate u = false ->
  unpaired (u :: rest) (S i) = unpaired rest i.
Proof.
  intros Hu. destruct i; [apply unpaired_second; exact Hu|apply unpaired_tail].
Qed.

(** Decoding succeeds exactly on the sequences without an unpaired
    surrogate. *)
Lemma utf16_decode_no_unpaired n : forall units,
  (length units <= n)%nat ->
  (exists cps, utf16_decode units = Some cps)
  <-> (forall i, unpaired units i = false).
Proof.
  induction n as [|n IH]; intros units Hlen.
  { destruct units; [|cbn in Hlen; lia].
    split; [intros _ i; apply unpaired_nil|intros _; exists []; reflexivity]. }
  destruct units as [|u rest].
  { split; [intros _ i; apply unpaired_nil|intros _; exists []; reflexivity]. }
  cbn [length] in Hlen. cbn [utf16_decode].
  destruct (is_high_surrogate u) eqn:Hh.
  - pose proof (high_not_low u Hh) as Hl.
    destruct rest as [|v rest'].
    { split; [intros [cps Hd]; discriminate|].
      intros Hnone. specialize (Hnone O).
      rewrite unpaired_head, Hh in Hnone. discriminate. }
    destruct (is_low_surrogate v) eqn:Hv.
    + pose proof (low_not_high v Hv) as Hvh.
      cbn [length] in Hlen.
      specialize (IH rest' ltac:(lia)).
      assert (Hshift : forall i,
        unpaired (u :: v :: rest') (S (S i)) = unpaired rest' i).
      { intros i. rewrite unpaired_tail. apply unpaired_cons. exact Hvh. }
      split.
      * intros [cps Hd].
        assert (Hrest : exists cps', utf16_decode rest' = Some cps').
        { destruct (utf16_decode rest') as [cps'|]; [|discriminate].
          exists cps'. reflexivity. }
        pose proof (proj1 IH Hrest) as Hok.
        intros [|[|i]].
        -- rewrite unpaired_head, Hh, Hl, Hv. reflexivity.
        -- unfold unpaired. cbn [nth_error]. rewrite Hvh, Hv, Hh. reflexivity.
        -- rewrite Hshift. apply Hok.
      * intros Hnone.
        assert (Hrest : forall i, unpaired rest' i = false).
        { intros i. rewrite <- Hshift. apply Hnone. }
        destruct (proj2 IH Hrest) as [cps' Hd].
        rewrite Hd. eexists. reflexivity.
    + split; [intros [cps Hd]; discriminate|].
      intros Hnone. specialize (Hnone O).
      rewrite unpaired_head, Hh, Hv in Hnone. discriminate.
  - destruct (is_low_surrogate u) eqn:Hl.
    + split; [intros [cps Hd]; discriminate|].
      intros Hnone. specialize (Hnone O).
      rewrite unpaired_head, Hl, orb_true_r in Hnone. discriminate.
    + specialize (IH rest ltac:(lia)). split.
      * intros [cps Hd].
        assert (Hrest : exists cps', utf16_decode rest = Some cps').
        { destruct (utf16_decode rest) as [cps'|]; [|discriminate].
          exists cps'. reflexivity. }
        pose proof (proj1 IH Hrest) as Hok.
        intros [|i].
        -- rewrite unpaired_head, Hh, Hl. reflexivity.
        -- rewrite unpaired_cons by exact Hh. apply Hok.
      * intros Hnone.
        assert (Hrest : forall i, unpaired rest i = false).
        { intros i. rewrite <- (unpaired_cons u rest i Hh). apply Hnone. }
        destruct (proj2 IH Hrest) as [cps' Hd].
        rewrite Hd. eexists. reflexivity.
Qed.

Lemma utf16_decode_well_formed units :
  (forall i, unpaired units i = false) ->
  exists cps, utf16_decode units = Some cps.
Proof.
  apply (utf16_decode_no_unpaired (length units) units (le_n _)).
Qed.

Lemma utf16_decode_ill_formed units i :
  unpaired units i = true -> utf16_decode units = None.
Proof.
  intros Hi. destruct (utf16_decode units) as [cps|] eqn:Hd; [|reflexivity].
  assert (Hex : exists cps, utf16_decode units = Some cps) by (exists cps; exact Hd).
  pose proof (proj1 (utf16_decode_no_unpaired (length units) units (le_n _)) Hex)
    as Hok.
  rewrite (Hok i) in Hi. discriminate.
Qed.

(** The encoding of a code point takes one to four bytes. *)
Lemma utf8_encode_length cp : (1 <= length (utf8_encode cp) <= 4)%nat.
Proof.
  unfold utf8_encode.
  destruct (cp <? 0x80); [cbn; lia|].
  destruct (cp <? 0x800); [cbn; lia|].
  destruct (cp <? 0x10000); cbn; lia.
Qed.

Lemma utf8_encode_all_length cps :
  (length cps <= length (flat_map utf8_encode cps) <= 4 * length cps)%nat.
Proof.
  induction cps as [|cp cps IH]; cbn [flat_map length]; [lia|].
  rewrite length_app. pose proof (utf8_encode_length cp). lia.
Qed.

(** Decoding never yields more code points than there are units, and
    at least one for a non-empty sequence. *)
Lemma utf16_decode_length n : forall units cps,
  (length units <= n)%nat ->
  utf16_decode units = Some cps ->
  (length cps <= length units)%nat /\ (units <> [] -> cps <> []).
Proof.
  induction n as [|n IH]; intros units cps Hlen Hd.
  { destruct units; [|cbn in Hlen; lia].
    inversion Hd. split; [cbn; lia|intros H; contradiction]. }
  destruct units as [|u rest].
  { inversion Hd. split; [cbn; lia|intros H; contradiction]. }
  cbn [length] in Hlen. cbn [utf16_decode] in Hd.
  destruct (is_high_surrogate u).
  - destruct rest as [|v rest']; [discriminate|].
    destruct (is_low_surrogate v); [|discriminate].
    destruct (utf16_decode rest') as [cps'|] eqn:Hd'; [|discriminate].
    inversion Hd. subst cps. cbn [length] in Hlen |- *.
    destruct (IH rest' cps' ltac:(lia) Hd') as [Hle _].
    split; [lia|discriminate].
  - destruct (is_low_surrogate u); [discriminate|].
    destruct (utf16_decode rest) as [cps'|] eqn:Hd'; [|discriminate].
    inversion Hd. subst cps. cbn [length].
    destruct (IH rest cps' ltac:(lia) Hd') as [Hle _].
    split; [lia|discriminate].
Qed.

(** ** Conversion of terminated strings *)

Lemma terminated_length s L :
  0 < L < kMaxUtf16Scan -> wcslen_is s L ->
  safe_wcsnlen (ptr s) kMaxUtf16Scan = L.
Proof.
  intros HL Hlen.
  rewrite (safe_wcsnlen_terminated s kMaxUtf16Scan L kMaxUtf16Scan_size Hlen).
  lia.
Qed.

(** A well-formed terminated string goes through both passes and comes
    out as its standard encoding. *)
Lemma Utf8FromUtf16_well_formed (W : Platform) s L bytes :
  StrictUtf8 W ->
  0 < L < kMaxUtf16Scan -> wcslen_is s L -> wchars s L ->
  utf8_of_utf16 (wcs s L) = Some bytes ->
  exec W (Utf8FromUtf16 (ptr s))
  = (Converted (Z.of_nat (length bytes)) (Z.of_nat (length bytes)), bytes).
Proof.
  intros HW HL Hlen Hrange Henc.
  pose proof (terminated_length s L HL Hlen) as Hscan.
  assert (Hsize : 0 < Z.of_nat (length bytes) <= INT_MAX).
  { unfold utf8_of_utf16 in Henc.
    destruct (utf16_decode (wcs s L)) as [cps|] eqn:Hd; [|discriminate].
    inversion Henc. subst bytes.
    destruct (utf16_decode_length _ _ _ (le_n _) Hd) as [Hle Hne].
    pose proof (utf8_encode_all_length cps) as Hbytes.
    rewrite wcs_length in Hle.
    assert (Hcps : cps <> []).
    { apply Hne. intros Hnil. apply (f_equal (@length Z)) in Hnil.
      rewrite wcs_length in Hnil. cbn in Hnil. lia. }
    assert (0 < length cps)%nat by (destruct cps; [contradiction|cbn; lia]).
    rewrite kMaxUtf16Scan_value in HL. unfold INT_MAX. lia. }
  rewrite Utf8FromUtf16_passes by (rewrite Hscan; exact HL).
  rewrite Hscan. cbv zeta.
  rewrite (wc_query W HW s L bytes) by (lia || assumption).
  rewrite (wc_convert W HW s L bytes) by (lia || assumption).
  cbn [fst snd].
  pose proof (wc_max_size W HW) as Hmax.
  destruct (_ <=? 0) eqn:H0; [apply Z.leb_le in H0; lia|]. cbn [orb].
  unfold static_cast_size_t.
  rewrite Z.mod_small by (unfold INT_MAX in *; lia).
  destruct (_ >? sys_max_size W) eqn:H1;
    [rewrite Z.gtb_ltb in H1; apply Z.ltb_lt in H1; lia|].
  destruct (_ =? 0) eqn:H2; [apply Z.eqb_eq in H2; lia|].
  rewrite store_full; [reflexivity|].
  rewrite resize_empty_length. lia.
Qed.

(** An ill-formed terminated string is rejected by the size query. *)
Lemma Utf8FromUtf16_ill_formed (W : Platform) s L :
  StrictUtf8 W ->
  0 < L < kMaxUtf16Scan -> wcslen_is s L ->
  utf8_of_utf16 (wcs s L) = None ->
  exec W (Utf8FromUtf16 (ptr s)) = (SizeQueryFailed 0, []).
Proof.
  intros HW HL Hlen Hbad.
  pose proof (terminated_length s L HL Hlen) as Hscan.
  rewrite Utf8FromUtf16_passes by (rewrite Hscan; exact HL).
  rewrite Hscan. cbv zeta.
  rewrite (wc_reject W HW s L 0) by (lia || assumption).
  reflexivity.
Qed.

(** C1. On a platform that meets the contract of the strict UTF-8
    primitive: for every wide-character sequence [s] of length [L] with
    [0 < L < kMaxUtf16Scan] (the element at index [L] is the first null
    element) whose first [L] elements form valid characters (16-bit units
    without an unpaired surrogate), [Utf8FromUtf16 s] returns exactly the
    standard UTF-8 encoding of the characters those [L] elements encode. *)
Theorem Utf8FromUtf16_standard_encoding (W : Platform) (s : Z -> wchar_t) (L : Z) :
  StrictUtf8 W ->
  0 < L < kMaxUtf16Scan ->
  wcslen_is s L ->
  wchars s L ->
  (forall i, unpaired (wcs s L) i = false) ->
  exists cps,
    utf16_decode (wcs s L) = Some cps /\
    Utf8FromUtf16_on W (ptr s) = flat_map utf8_encode cps.
Proof.
  intros HW HL Hlen Hrange Hvalid.
  destruct (utf16_decode_well_formed _ Hvalid) as [cps Hd].
  exists cps. split; [exact Hd|].
  unfold Utf8FromUtf16_on.
  rewrite (Utf8FromUtf16_well_formed W s L (flat_map utf8_encode cps));
    try assumption; [reflexivity|].
  unfold utf8_of_utf16. rewrite Hd. reflexivity.
Qed.

Lemma wstr_ABC_length : wcslen_is (wstr [0x41; 0x42; 0x43]) 3.
Proof.
  split; [lia|]. split; [reflexivity|].
  intros i Hi. assert (Hc : i = 0 \/ i = 1 \/ i = 2) by lia.
  destruct Hc as [H0 | [H0 | H0]]; subst i; discriminate.
Qed.

Lemma wstr_ABC_wchars : wchars (wstr [0x41; 0x42; 0x43]) 3.
Proof.
  intros i Hi. assert (Hc : i = 0 \/ i = 1 \/ i = 2) by lia.
  destruct Hc as [H0 | [H0 | H0]]; subst i; vm_compute; split; discriminate.
Qed.

(** The input "A","B","C",NUL yields the 3 bytes 0x41,0x42,0x43, with no
    trailing null. *)
Lemma Utf8FromUtf16_standard_encoding_witness :
  wcslen_is (wstr [0x41; 0x42; 0x43]) 3 /\
  Utf8FromUtf16_on Win32.platform (ptr (wstr [0x41; 0x42; 0x43]))
  = [0x41; 0x42; 0x43] /\
  length (Utf8FromUtf16_on Win32.platform (ptr (wstr [0x41; 0x42; 0x43])))
  = 3%nat.
Proof.
  assert (HL : 0 < 3 < kMaxUtf16Scan) by (rewrite kMaxUtf16Scan_value; lia).
  assert (Hvalid : forall i, unpaired (wcs (wstr [0x41; 0x42; 0x43]) 3) i = false).
  { intros [|[|[|[|i]]]]; reflexivity. }
  destruct (Utf8FromUtf16_standard_encoding Win32.platform
              (wstr [0x41; 0x42; 0x43]) 3
              win32_strict_utf8 HL wstr_ABC_length wstr_ABC_wchars Hvalid)
    as (cps & Hd & Hr).
  vm_compute in Hd. inversion Hd. subst cps.
  split; [exact wstr_ABC_length|].
  rewrite Hr. split; reflexivity.
Defined.

(** C4. On a platform that meets the contract of the strict UTF-8
    primitive: for every null-terminated wide-character sequence within
    the scan bound that contains an invalid code unit, that is, an
    unpaired surrogate (every other 16-bit unit is valid UTF-16),
    [Utf8FromUtf16] returns the empty string; the size query fails and
    nothing, in particular no placeholder character, is written. *)
Theorem Utf8FromUtf16_rejects_unpaired
    (W : Platform) (s : Z -> wchar_t) (L : Z) (i : nat) :
  StrictUtf8 W ->
  L < kMaxUtf16Scan ->
  wcslen_is s L ->
  unpaired (wcs s L) i = true ->
  Utf8FromUtf16_on W (ptr s) = [] /\
  exec W (Utf8FromUtf16 (ptr s)) = (SizeQueryFailed 0, []).
Proof.
  intros HW HL Hlen Hbad.
  assert (Hpos : 0 < L).
  { destruct Hlen as (H0 & _).
    destruct (Z.eq_dec L 0) as [->|]; [|lia].
    cbn in Hbad. rewrite unpaired_nil in Hbad. discriminate. }
  assert (Hrun : exec W (Utf8FromUtf16 (ptr s)) = (SizeQueryFailed 0, [])).
  { apply (Utf8FromUtf16_ill_formed W s L HW); [lia|exact Hlen|].
    unfold utf8_of_utf16.
    rewrite (utf16_decode_ill_formed _ i Hbad). reflexivity. }
  split; [|exact Hrun]. unfold Utf8FromUtf16_on. rewrite Hrun. reflexivity.
Qed.

Lemma Utf8FromUtf16_rejects_unpaired_witness :
  unpaired (wcs (wstr [0x41; 0xD83D; 0x41]) 3) 1 = true /\
  Utf8FromUtf16_on Win32.platform (ptr (wstr [0x41; 0xD83D; 0x41])) = [].
Proof.
  assert (Hbad : unpaired (wcs (wstr [0x41; 0xD83D; 0x41]) 3) 1 = true)
    by reflexivity.
  split; [exact Hbad|].
  apply (Utf8FromUtf16_rejects_unpaired Win32.platform
           (wstr [0x41; 0xD83D; 0x41]) 3 1 win32_strict_utf8).
  - rewrite kMaxUtf16Scan_value. lia.
  - split; [lia|]. split; [reflexivity|].
    intros i Hi. assert (Hc : i = 0 \/ i = 1 \/ i = 2) by lia.
    destruct Hc as [H0 | [H0 | H0]]; subst i; discriminate.
  - exact Hbad.
Defined.

(** Without strict validation the model of the primitive would have
    replaced the unpaired surrogate by U+FFFD. *)
Example lossy_mode_substitutes :
  Win32.WideCharToMultiByte_model CP_UTF8 0 (wstr [0x41; 0xD83D; 0x41]) 3 5
  = (5, [0x41; 0xEF; 0xBF; 0xBD; 0x41]).
Proof. reflexivity. Qed.

(** ** Decoding the result *)

Lemma scalar_value_not_surrogate cp :
  scalar_value cp -> cp < 0xD800 \/ 0xDFFF < cp.
Proof.
  intros [_ Hs]. unfold is_surrogate in Hs.
  apply andb_false_iff in Hs. destruct Hs as [Hs|Hs]; apply Z.leb_gt in Hs; lia.
Qed.

(** Decoding undoes the encoding of a scalar value. *)
Lemma utf8_decode_encode cp rest :
  scalar_value cp ->
  utf8_decode (utf8_encode cp ++ rest) = option_map (cons cp) (utf8_decode rest).
Proof.
  intros Hcp. pose proof (scalar_value_not_surrogate cp Hcp) as Hns.
  destruct Hcp as [Hrange _].
  unfold utf8_encode.
  destruct (cp <? 0x80) eqn:H1.
  { apply Z.ltb_lt in H1. cbn [app utf8_decode]. ztest. reflexivity. }
  apply Z.ltb_ge in H1.
  pose proof (Z.div_mod cp 64 ltac:(lia)) as Hcp0.
  pose proof (Z.mod_pos_bound cp 64 ltac:(lia)) as Hr0.
  destruct (cp <? 0x800) eqn:H2.
  { apply Z.ltb_lt in H2. cbn [app utf8_decode]. cbv zeta.
    replace ((0xC0 + cp / 64 - 0xC0) * 64 + (0x80 + cp mod 64 - 0x80))
      with cp by lia.
    unfold is_continuation.
    generalize dependent (cp / 64). generalize dependent (cp mod 64).
    intros r Hr q Hq. ztest. reflexivity. }
  apply Z.ltb_ge in H2.
  pose proof (Z.div_mod (cp / 64) 64 ltac:(lia)) as Hcp1.
  pose proof (Z.mod_pos_bound (cp / 64) 64 ltac:(lia)) as Hr1.
  assert (Hq1 : cp / 4096 = cp / 64 / 64) by (rewrite Z.div_div by lia; reflexivity).
  destruct (cp <? 0x10000) eqn:H3.
  { apply Z.ltb_lt in H3. cbn [app utf8_decode]. cbv zeta.
    rewrite Hq1.
    replace ((0xE0 + cp / 64 / 64 - 0xE0) * 4096
             + (0x80 + (cp / 64) mod 64 - 0x80) * 64
             + (0x80 + cp mod 64 - 0x80)) with cp by lia.
    unfold is_continuation, is_surrogate.
    generalize dependent (cp / 64 / 64). generalize dependent ((cp / 64) mod 64).
    generalize dependent (cp / 64). generalize dependent (cp mod 64).
    intros r0 Hr0 q0 Hq0 r1 Hr1 q1 Hq1 _. ztest.
    destruct Hns as [Hns|Hns]; ztest; reflexivity. }
  apply Z.ltb_ge in H3.
  pose proof (Z.div_mod (cp / 64 / 64) 64 ltac:(lia)) as Hcp2.
  pose proof (Z.mod_pos_bound (cp / 64 / 64) 64 ltac:(lia)) as Hr2.
  assert (Hq2 : cp / 262144 = cp / 64 / 64 / 64)
    by (rewrite !Z.div_div by lia; reflexivity).
  cbn [app utf8_decode]. cbv zeta. rewrite Hq1, Hq2.
  replace ((0xF0 + cp / 64 / 64 / 64 - 0xF0) * 262144
           + (0x80 + (cp / 64 / 64) mod 64 - 0x80) * 4096
           + (0x80 + (cp / 64) mod 64 - 0x80) * 64
           + (0x80 + cp mod 64 - 0x80)) with cp by lia.
  unfold is_continuation.
  generalize dependent (cp / 64 / 64 / 64).
  generalize dependent ((cp / 64 / 64) mod 64).
  generalize dependent (cp / 64 / 64). generalize dependent ((cp / 64) mod 64).
  generalize dependent (cp / 64). generalize dependent (cp mod 64).
  intros. ztest. reflexivity.
Qed.

Lemma utf8_decode_encode_all cps :
  Forall scalar_value cps ->
  utf8_decode (flat_map utf8_encode cps) = Some cps.
Proof.
  induction 1 as [|cp cps Hcp _ IH]; [reflexivity|].
  cbn [flat_map]. rewrite utf8_decode_encode by exact Hcp.
  rewrite IH. reflexivity.
Qed.

(** In-range units decode to scalar values. *)
Lemma utf16_decode_scalar n : forall units cps,
  (length units <= n)%nat ->
  Forall (fun u => 0 <= u <= WCHAR_MAX) units ->
  utf16_decode units = Some cps ->
  Forall scalar_value cps.
Proof.
  induction n as [|n IH]; intros units cps Hlen Hrange Hd.
  { destruct units; [|cbn in Hlen; lia]. inversion Hd. constructor. }
  destruct units as [|u rest]; [inversion Hd; constructor|].
  cbn [length] in Hlen. cbn [utf16_decode] in Hd.
  inversion Hrange as [|? ? Hu Hrest]; subst.
  destruct (is_high_surrogate u) eqn:Hh.
  - destruct rest as [|v rest']; [discriminate|].
    destruct (is_low_surrogate v) eqn:Hv; [|discriminate].
    destruct (utf16_decode rest') as [cps'|] eqn:Hd'; [|discriminate].
    inversion Hd. subst cps. inversion Hrest; subst.
    cbn [length] in Hlen. constructor.
    + destruct (pair_value_surrogate_pair u v Hh Hv) as [_ Hsp].
      split; [lia|]. unfold is_surrogate.
      apply andb_false_iff. right. apply Z.leb_gt. lia.
    + apply (IH rest' cps'); [lia|assumption|exact Hd'].
  - destruct (is_low_surrogate u) eqn:Hl; [discriminate|].
    destruct (utf16_decode rest) as [cps'|] eqn:Hd'; [|discriminate].
    inversion Hd. subst cps. constructor.
    + unfold WCHAR_MAX in Hu. split; [lia|].
      unfold is_high_surrogate, is_low_surrogate, is_surrogate in *.
      apply andb_false_iff in Hh, Hl. apply andb_false_iff.
      destruct Hh as [Hh|Hh], Hl as [Hl|Hl];
        apply Z.leb_gt in Hh, Hl;
        try (left; apply Z.leb_gt; lia); right; apply Z.leb_gt; lia.
    + apply (IH rest cps'); [lia|assumption|exact Hd'].
Qed.

Lemma wcs_Forall (P : Z -> Prop) s n :
  (forall i, 0 <= i < n -> P (s i)) -> Forall P (wcs s n).
Proof.
  intros HP. apply Forall_forall. intros u Hu.
  unfold wcs in Hu. apply in_map_iff in Hu. destruct Hu as (k & <- & Hk).
  apply in_seq in Hk. apply HP. lia.
Qed.

(** Decoding the result of a well-formed string gives back the
    characters of the input. *)
Lemma Utf8FromUtf16_round_trip (W : Platform) s L cps :
  StrictUtf8 W ->
  0 < L < kMaxUtf16Scan -> wcslen_is s L -> wchars s L ->
  utf16_decode (wcs s L) = Some cps ->
  utf8_decode (Utf8FromUtf16_on W (ptr s)) = Some cps.
Proof.
  intros HW HL Hlen Hrange Hd.
  unfold Utf8FromUtf16_on.
  rewrite (Utf8FromUtf16_well_formed W s L (flat_map utf8_encode cps));
    try assumption.
  - cbn [snd]. apply utf8_decode_encode_all.
    apply (utf16_decode_scalar _ (wcs s L) cps (le_n _)); [|exact Hd].
    apply wcs_Forall. exact Hrange.
  - unfold utf8_of_utf16. rewrite Hd. reflexivity.
Qed.

(** ASCII units stand for themselves. *)
Lemma utf16_decode_ascii units :
  Forall (fun u => 0 <= u < 0x80) units -> utf16_decode units = Some units.
Proof.
  induction 1 as [|u rest Hu _ IH]; [reflexivity|].
  cbn [utf16_decode].
  destruct (not_surrogate_below_0x800 u) as [Hh Hl]; [lia|].
  rewrite Hh, Hl, IH. reflexivity.
Qed.

(** C9. On a platform that meets the contract of the strict UTF-8
    primitive: for every null-terminated ASCII wide-character string of
    length [L] with [0 < L < kMaxUtf16Scan], decoding the UTF-8 bytes
    that [Utf8FromUtf16] returns recovers the same sequence of
    characters. *)
Theorem Utf8FromUtf16_ascii_round_trip (W : Platform) (s : Z -> wchar_t) (L : Z) :
  StrictUtf8 W ->
  0 < L < kMaxUtf16Scan ->
  s L = 0 ->
  (forall i, 0 <= i < L -> 0 < s i < 0x80) ->
  utf8_decode (Utf8FromUtf16_on W (ptr s)) = Some (wcs s L).
Proof.
  intros HW HL Hnul Hascii.
  apply (Utf8FromUtf16_round_trip W s L); try assumption.
  - split; [lia|]. split; [exact Hnul|].
    intros i Hi. specialize (Hascii i Hi). lia.
  - intros i Hi. specialize (Hascii i Hi). unfold WCHAR_MAX. lia.
  - apply utf16_decode_ascii. apply wcs_Forall.
    intros i Hi. specialize (Hascii i Hi). lia.
Qed.

Lemma Utf8FromUtf16_ascii_round_trip_witness :
  Utf8FromUtf16_on Win32.platform (ptr (wstr [0x48; 0x69])) = [0x48; 0x69] /\
  utf8_decode (Utf8FromUtf16_on Win32.platform (ptr (wstr [0x48; 0x69])))
  = Some [0x48; 0x69].
Proof.
  split; [vm_compute; reflexivity|].
  apply (Utf8FromUtf16_ascii_round_trip Win32.platform (wstr [0x48; 0x69]) 2
           win32_strict_utf8).
  - rewrite kMaxUtf16Scan_value. lia.
  - reflexivity.
  - intros i Hi. assert (Hc : i = 0 \/ i = 1) by lia.
    destruct Hc as [H0 | H0]; subst i; vm_compute; split; reflexivity.
Defined.

(** ** The contracts at work on the model *)

(** When the conversion fails after a successful size query, the result
    is empty. *)
Example failed_conversion_returns_empty :
  exec Win32.failing_platform (Utf8FromUtf16 (ptr (wstr [0x41; 0x42])))
  = (ConversionFailed 2, []).
Proof. vm_compute. reflexivity. Qed.

(** ** More on the bounded scan *)

(** The result of the scan is the only index with its two properties. *)
Lemma safe_wcsnlen_unique s max m :
  0 <= max <= SIZE_MAX -> 0 <= m <= max ->
  (forall j, 0 <= j < m -> s j <> 0) -> (m < max -> s m = 0) ->
  safe_wcsnlen (ptr s) max = m.
Proof.
  intros Hmax Hm Hpre Hstop.
  destruct (safe_wcsnlen_ptr s max Hmax) as (Hn & Hnpre & Hnstop).
  set (n := safe_wcsnlen (ptr s) max) in *.
  destruct (Z.lt_trichotomy n m) as [Hlt|[Heq|Hgt]]; [|exact Heq|].
  - exfalso. apply (Hpre n); [lia|]. apply Hnstop. lia.
  - exfalso. apply (Hnpre m); [lia|]. apply Hstop. lia.
Qed.

(** X1. [safe_wcsnlen] reads nothing beyond the index it returns, and
    nothing at or beyond [max]: a memory that agrees with [s] on the
    offsets up to the result (and below [max]) is measured the same,
    whatever it holds elsewhere. *)
Theorem safe_wcsnlen_reads_up_to_result (s s' : Z -> wchar_t) (max : Z) :
  0 <= max <= SIZE_MAX ->
  (forall i, 0 <= i <= safe_wcsnlen (ptr s) max -> i < max -> s i = s' i) ->
  safe_wcsnlen (ptr s') max = safe_wcsnlen (ptr s) max.
Proof.
  intros Hmax Hagree.
  destruct (safe_wcsnlen_ptr s max Hmax) as (Hn & Hpre & Hstop).
  set (n := safe_wcsnlen (ptr s) max) in *.
  apply safe_wcsnlen_unique; [exact Hmax|exact Hn| |].
  - intros j Hj. rewrite <- Hagree by lia. apply Hpre. exact Hj.
  - intros Hlt. rewrite <- Hagree by lia. apply Hstop. exact Hlt.
Qed.

Lemma safe_wcsnlen_reads_up_to_result_witness :
  safe_wcsnlen (ptr (fun i => if i <? 3 then wstr [0x41; 0x42] i else 7)) 8
  = safe_wcsnlen (ptr (wstr [0x41; 0x42])) 8.
Proof.
  assert (Hmax : 0 <= 8 <= SIZE_MAX) by (unfold SIZE_MAX; lia).
  apply (safe_wcsnlen_reads_up_to_result (wstr [0x41; 0x42])
           (fun i => if i <? 3 then wstr [0x41; 0x42] i else 7) 8 Hmax).
  intros i Hi _.
  assert (Hn : safe_wcsnlen (ptr (wstr [0x41; 0x42])) 8 = 2)
    by (vm_compute; reflexivity).
  rewrite Hn in Hi.
  destruct (i <? 3) eqn:Hlt; [reflexivity|]. apply Z.ltb_ge in Hlt. lia.
Defined.

(** X2. Scanning with a smaller bound truncates the result of scanning
    with a larger one: for [max <= max'],
    [safe_wcsnlen s max = min (safe_wcsnlen s max') max]. *)
Theorem safe_wcsnlen_smaller_bound (p : wptr) (max max' : Z) :
  0 <= max <= max' -> max' <= SIZE_MAX ->
  safe_wcsnlen p max = Z.min (safe_wcsnlen p max') max.
Proof.
  intros Hmax Hmax'. destruct p as [|s]; [cbn [safe_wcsnlen]; lia|].
  destruct (safe_wcsnlen_ptr s max' ltac:(lia)) as (Hn & Hpre & Hstop).
  set (n := safe_wcsnlen (ptr s) max') in *.
  apply safe_wcsnlen_unique; [lia|lia| |].
  - intros j Hj. apply Hpre. lia.
  - intros Hlt. replace (Z.min n max) with n by lia. apply Hstop. lia.
Qed.

Lemma safe_wcsnlen_smaller_bound_witness :
  safe_wcsnlen (ptr (wstr [0x41; 0x42; 0x43])) 2
  = Z.min (safe_wcsnlen (ptr (wstr [0x41; 0x42; 0x43])) 16) 2.
Proof.
  apply (safe_wcsnlen_smaller_bound (ptr (wstr [0x41; 0x42; 0x43])) 2 16);
    unfold SIZE_MAX; lia.
Defined.

(** ** What [Utf8FromUtf16] asks of the primitive *)

(** The conversion calls made once the scanned length has passed the
    length checks: the size query, and the conversion if the size is
    accepted. *)
Lemma Utf8FromUtf16_calls_passes (W : Platform) (s : Z -> wchar_t) :
  let wlen := safe_wcsnlen (ptr s) kMaxUtf16Scan in
  0 < wlen < kMaxUtf16Scan ->
  calls W (Utf8FromUtf16 (ptr s)) =
  let call cb :=
    {| call_CodePage := CP_UTF8; call_dwFlags := WC_ERR_INVALID_CHARS;
       call_lpWideCharStr := s; call_cchWideChar := wlen;
       call_cbMultiByte := cb |} in
  let target_length :=
    fst (sys_WideCharToMultiByte W CP_UTF8 WC_ERR_INVALID_CHARS s wlen 0) in
  if (target_length <=? 0)
     || (static_cast_size_t target_length >? sys_max_size W)
  then [call 0]
  else [call 0; call target_length].
Proof.
  intros wlen Hlen.
  destruct (scanned_length_fits_int (ptr s)) as (Hguard & Hcast).
  fold wlen in Hguard, Hcast.
  unfold Utf8FromUtf16. fold wlen.
  rewrite Hguard, Hcast.
  destruct (wlen =? 0) eqn:H0; [apply Z.eqb_eq in H0; lia|].
  destruct (wlen =? kMaxUtf16Scan) eqn:H1; [apply Z.eqb_eq in H1; lia|].
  cbn [calls]. cbn zeta.
  destruct (fst _ <=? 0); cbn [orb calls]; [reflexivity|].
  destruct (static_cast_size_t _ >? sys_max_size W); cbn [calls]; [reflexivity|].
  destruct (fst _ =? 0); reflexivity.
Qed.

(** X3. On every platform and for every input, [Utf8FromUtf16] makes at
    most two conversion calls.  Each call is made under [CP_UTF8] with
    [WC_ERR_INVALID_CHARS], on the input pointer itself, with an explicit
    length equal to the scanned length, which is then strictly between 0
    and [kMaxUtf16Scan] (never the implicit length -1, never a length
    that reaches past the scanned units).  The first call is a size
    query; a second call is given a positive buffer size. *)
Theorem Utf8FromUtf16_conversion_calls (W : Platform) (p : wptr) :
  let wlen := safe_wcsnlen p kMaxUtf16Scan in
  let cs := calls W (Utf8FromUtf16 p) in
  (length cs <= 2)%nat /\
  Forall (fun c =>
            call_CodePage c = CP_UTF8 /\
            call_dwFlags c = WC_ERR_INVALID_CHARS /\
            p = ptr (call_lpWideCharStr c) /\
            call_cchWideChar c = wlen /\
            0 < wlen < kMaxUtf16Scan) cs /\
  match cs with
  | [] => True
  | [c1] => call_cbMultiByte c1 = 0
  | c1 :: c2 :: _ => call_cbMultiByte c1 = 0 /\ 0 < call_cbMultiByte c2
  end.
Proof.
  intros wlen cs. subst cs wlen.
  destruct p as [|s];
    [cbn [Utf8FromUtf16 calls length]; split; [lia|]; split; [constructor|exact I]|].
  destruct (Utf8FromUtf16_cases W s) as [[_ Hp]|[[_ Hp]|Hlen]];
    try (rewrite Hp; cbn [calls length]; split; [lia|];
         split; [constructor|exact I]).
  rewrite (Utf8FromUtf16_calls_passes W s Hlen). cbv zeta.
  remember (safe_wcsnlen (ptr s) kMaxUtf16Scan) as wlen eqn:Hw. clear Hw.
  assert (Hcall : forall cb,
    (fun c => call_CodePage c = CP_UTF8 /\
              call_dwFlags c = WC_ERR_INVALID_CHARS /\
              ptr s = ptr (call_lpWideCharStr c) /\
              call_cchWideChar c = wlen /\
              0 < wlen < kMaxUtf16Scan)
      {| call_CodePage := CP_UTF8; call_dwFlags := WC_ERR_INVALID_CHARS;
         call_lpWideCharStr := s; call_cchWideChar := wlen;
         call_cbMultiByte := cb |}).
  { intros cb. cbn beta.
    cbn [call_CodePage call_dwFlags call_lpWideCharStr call_cchWideChar].
    split; [reflexivity|]. split; [reflexivity|]. split; [reflexivity|].
    split; [reflexivity|exact Hlen]. }
  destruct (fst _ <=? 0) eqn:Ht; cbn [orb].
  { split; [cbn [length]; lia|]. split; [|reflexivity].
    constructor; [apply Hcall|constructor]. }
  apply Z.leb_gt in Ht.
  destruct (static_cast_size_t _ >? sys_max_size W).
  { split; [cbn [length]; lia|]. split; [|reflexivity].
    constructor; [apply Hcall|constructor]. }
  split; [cbn [length]; lia|].
  split; [|cbn [call_cbMultiByte]; split; [reflexivity|exact Ht]].
  constructor; [apply Hcall|constructor; [apply Hcall|constructor]].
Qed.

(** ** Empty and non-empty results *)

Lemma win32_returns_int : ReturnsInt Win32.platform.
Proof. exact (wc_int _ win32_size_query_exact). Qed.

(** X4. On a platform whose primitive returns an [int]: the string
    [Utf8FromUtf16] returns is empty exactly when the call did not leave
    through the final [return] after a successful second pass.  Every
    failure gives the empty string, and a completed conversion never
    does. *)
Theorem Utf8FromUtf16_empty_iff_not_converted (W : Platform) (p : wptr) :
  ReturnsInt W ->
  Utf8FromUtf16_on W p = []
  <-> is_Converted (fst (exec W (Utf8FromUtf16 p))) = false.
Proof.
  intros Hint. unfold Utf8FromUtf16_on.
  destruct p as [|s]; [cbn; split; reflexivity|].
  destruct (Utf8FromUtf16_cases W s) as [[_ Hp]|[[_ Hp]|Hlen]];
    try (rewrite Hp; cbn; split; reflexivity).
  rewrite (Utf8FromUtf16_passes W s Hlen). cbv zeta.
  remember (safe_wcsnlen (ptr s) kMaxUtf16Scan) as wlen eqn:Hw. clear Hw Hlen.
  pose proof (Hint CP_UTF8 WC_ERR_INVALID_CHARS s wlen 0) as Ht_int.
  remember (fst (sys_WideCharToMultiByte W CP_UTF8 WC_ERR_INVALID_CHARS s wlen 0))
    as t eqn:Hq. clear Hq.
  destruct (t <=? 0) eqn:Ht; cbn [orb]; [cbn; split; reflexivity|].
  apply Z.leb_gt in Ht.
  destruct (static_cast_size_t t >? sys_max_size W); [cbn; split; reflexivity|].
  destruct (fst _ =? 0); [cbn; split; reflexivity|].
  cbn [fst snd is_Converted].
  split; [|discriminate].
  intros Hnil. apply (f_equal (@length Z)) in Hnil.
  rewrite store_length, resize_empty_length in Hnil. cbn [length] in Hnil.
  unfold static_cast_size_t in Hnil.
  rewrite Z.mod_small in Hnil by (unfold INT_MAX in *; lia). lia.
Qed.

Lemma Utf8FromUtf16_empty_iff_not_converted_witness :
  Utf8FromUtf16_on Win32.platform (ptr (wstr [0x41; 0xDC00])) = [].
Proof.
  apply (Utf8FromUtf16_empty_iff_not_converted Win32.platform
           (ptr (wstr [0x41; 0xDC00])) win32_returns_int).
  vm_compute. reflexivity.
Defined.

(** ** Memory after the terminator *)

(** X5. On a platform whose primitive reads only the units it is given:
    [Utf8FromUtf16] depends on the units up to the first null element
    and on nothing after it.  Two memories that agree up to the
    terminator of a string shorter than the scan bound take the same
    exit and give the same bytes. *)
Theorem Utf8FromUtf16_ignores_memory_after_terminator
    (W : Platform) (s s' : Z -> wchar_t) (L : Z) :
  ReadsOnlyInput W ->
  L < kMaxUtf16Scan ->
  wcslen_is s L ->
  (forall i, 0 <= i <= L -> s i = s' i) ->
  exec W (Utf8FromUtf16 (ptr s)) = exec W (Utf8FromUtf16 (ptr s')).
Proof.
  intros Hlocal HL Hlen Hagree.
  assert (Hlen' : wcslen_is s' L).
  { destruct Hlen as (H0 & Hnul & Hnz). split; [exact H0|]. split.
    - rewrite <- Hagree by lia. exact Hnul.
    - intros i Hi. rewrite <- Hagree by lia. apply Hnz. exact Hi. }
  assert (HL0 : 0 <= L) by (destruct Hlen; assumption).
  pose proof (safe_wcsnlen_terminated s kMaxUtf16Scan L kMaxUtf16Scan_size Hlen)
    as Hscan.
  pose proof (safe_wcsnlen_terminated s' kMaxUtf16Scan L kMaxUtf16Scan_size Hlen')
    as Hscan'.
  rewrite Z.min_l in Hscan, Hscan' by lia.
  destruct (Utf8FromUtf16_cases W s) as [[H0 Hp]|[[H0 Hp]|H0]];
    destruct (Utf8FromUtf16_cases W s') as [[H0' Hq]|[[H0' Hq]|H0']];
    try (rewrite Hp, Hq; reflexivity);
    try (exfalso; rewrite Hscan in H0; rewrite Hscan' in H0'; lia).
  rewrite (Utf8FromUtf16_passes W s H0), (Utf8FromUtf16_passes W s' H0').
  cbv zeta. rewrite Hscan, Hscan'.
  assert (Hcall : forall cb,
    sys_WideCharToMultiByte W CP_UTF8 WC_ERR_INVALID_CHARS s L cb
    = sys_WideCharToMultiByte W CP_UTF8 WC_ERR_INVALID_CHARS s' L cb).
  { intros cb. apply Hlocal. intros i Hi. apply Hagree. lia. }
  rewrite !Hcall. reflexivity.
Qed.

Lemma Utf8FromUtf16_ignores_memory_after_terminator_witness :
  exec Win32.platform (Utf8FromUtf16 (ptr (wstr [0x41; 0x42])))
  = exec Win32.platform
      (Utf8FromUtf16 (ptr (wstr [0x41; 0x42; 0; 0xD800; 0x43]))).
Proof.
  apply (Utf8FromUtf16_ignores_memory_after_terminator Win32.platform
           (wstr [0x41; 0x42]) (wstr [0x41; 0x42; 0; 0xD800; 0x43]) 2
           win32_reads_only_input).
  - rewrite kMaxUtf16Scan_value. lia.
  - split; [lia|]. split; [reflexivity|].
    intros i Hi. assert (Hc : i = 0 \/ i = 1) by lia.
    destruct Hc as [H0 | H0]; subst i; discriminate.
  - intros i Hi. assert (Hc : i = 0 \/ i = 1 \/ i = 2) by lia.
    destruct Hc as [H0 | [H0 | H0]]; subst i; reflexivity.
Defined.

(** ** Strings given as lists of units *)

Lemma wcs_wstr l : wcs (wstr l) (Z.of_nat (length l)) = l.
Proof.
  unfold wcs, wstr. rewrite Nat2Z.id.
  rewrite (map_ext _ (fun k => nth k l 0))
    by (intros k; rewrite Nat2Z.id; reflexivity).
  induction l as [|u l IH]; [reflexivity|].
  cbn [length seq map nth]. f_equal.
  rewrite <- seq_shift, map_map. exact IH.
Qed.

Lemma wstr_nth l i :
  0 <= i < Z.of_nat (length l) -> In (wstr l i) l.
Proof. intros Hi. unfold wstr. apply nth_In. lia. Qed.

Lemma wstr_wcslen l :
  Forall (fun u => 0 < u <= WCHAR_MAX) l ->
  wcslen_is (wstr l) (Z.of_nat (length l)).
Proof.
  intros Hl. split; [lia|]. split.
  - unfold wstr. rewrite Nat2Z.id. apply nth_overflow. lia.
  - intros i Hi. pose proof (wstr_nth l i Hi) as Hin.
    rewrite Forall_forall in Hl. specialize (Hl _ Hin). lia.
Qed.

Lemma wstr_wchars l :
  Forall (fun u => 0 < u <= WCHAR_MAX) l ->
  wchars (wstr l) (Z.of_nat (length l)).
Proof.
  intros Hl i Hi. pose proof (wstr_nth l i Hi) as Hin.
  rewrite Forall_forall in Hl. specialize (Hl _ Hin). lia.
Qed.

Lemma Utf8FromUtf16_zero_length_any (W : Platform) (p : wptr) :
  safe_wcsnlen p kMaxUtf16Scan = 0 -> Utf8FromUtf16_on W p = [].
Proof.
  intros Hz. unfold Utf8FromUtf16_on. destruct p as [|s]; [reflexivity|].
  destruct (Utf8FromUtf16_cases W s) as [[_ Hp]|[[H0 _]|H0]].
  - rewrite Hp. reflexivity.
  - exfalso. rewrite Hz, kMaxUtf16Scan_value in H0. lia.
  - exfalso. rewrite Hz in H0. lia.
Qed.

(** The conversion of a string held in memory as the units [l]. *)
Lemma Utf8FromUtf16_wstr (W : Platform) l bytes :
  StrictUtf8 W ->
  Forall (fun u => 0 < u <= WCHAR_MAX) l ->
  Z.of_nat (length l) < kMaxUtf16Scan ->
  utf8_of_utf16 l = Some bytes ->
  Utf8FromUtf16_on W (ptr (wstr l)) = bytes.
Proof.
  intros HW Hl Hlen Henc.
  destruct l as [|u l'].
  { assert (Hb : bytes = []) by (inversion Henc; reflexivity). subst bytes.
    assert (Hz : safe_wcsnlen (ptr (wstr [])) kMaxUtf16Scan = 0).
    { apply safe_wcsnlen_unique; [apply kMaxUtf16Scan_size| | |].
      - rewrite kMaxUtf16Scan_value. lia.
      - intros j Hj. lia.
      - intros _. reflexivity. }
    apply (Utf8FromUtf16_zero_length_any W (ptr (wstr [])) Hz). }
  unfold Utf8FromUtf16_on.
  rewrite (Utf8FromUtf16_well_formed W (wstr (u :: l'))
             (Z.of_nat (length (u :: l'))) bytes HW).
  - reflexivity.
  - cbn [length] in *. lia.
  - apply wstr_wcslen. exact Hl.
  - apply wstr_wchars. exact Hl.
  - rewrite wcs_wstr. exact Henc.
Qed.

(** ** Induction on decoded UTF-16 *)

Lemma utf16_decode_cases (P : list Z -> list Z -> Prop) :
  P [] [] ->
  (forall u rest cps,
     is_high_surrogate u = false -> is_low_surrogate u = false ->
     utf16_decode rest = Some cps -> P rest cps -> P (u :: rest) (u :: cps)) ->
  (forall hi lo rest cps,
     is_high_surrogate hi = true -> is_low_surrogate lo = true ->
     utf16_decode rest = Some cps -> P rest cps ->
     P (hi :: lo :: rest) (surrogate_pair hi lo :: cps)) ->
  forall units cps, utf16_decode units = Some cps -> P units cps.
Proof.
  intros Hnil Hbmp Hpair units.
  assert (Hgen : forall n units cps,
    (length units <= n)%nat -> utf16_decode units = Some cps -> P units cps).
  { induction n as [|n IH]; intros l cps Hlen Hd.
    { destruct l; [|cbn in Hlen; lia]. inversion Hd. exact Hnil. }
    destruct l as [|u rest]; [inversion Hd; exact Hnil|].
    cbn [length] in Hlen. cbn [utf16_decode] in Hd.
    destruct (is_high_surrogate u) eqn:Hh.
    - destruct rest as [|v rest']; [discriminate|].
      destruct (is_low_surrogate v) eqn:Hv; [|discriminate].
      destruct (utf16_decode rest') as [cps'|] eqn:Hd'; [|discriminate].
      inversion Hd. subst cps. cbn [length] in Hlen.
      apply Hpair; try assumption. apply IH; [lia|exact Hd'].
    - destruct (is_low_surrogate u) eqn:Hl; [discriminate|].
      destruct (utf16_decode rest) as [cps'|] eqn:Hd'; [|discriminate].
      inversion Hd. subst cps.
      apply Hbmp; try assumption. apply IH; [lia|exact Hd']. }
  intros cps. apply (Hgen (length units)). lia.
Qed.

(** Either some unit is an unpaired surrogate or none is. *)
Lemma unpaired_decide units :
  (forall i, unpaired units i = false) \/ (exists i, unpaired units i = true).
Proof.
  destruct (existsb (unpaired units) (seq 0 (length units))) eqn:He.
  - right. apply existsb_exists in He. destruct He as (i & _ & Hi).
    exists i. exact Hi.
  - left. intros i.
    destruct (Nat.lt_ge_cases i (length units)) as [Hlt|Hge].
    + destruct (unpaired units i) eqn:Hi; [|reflexivity].
      rewrite <- He. symmetry. apply existsb_exists.
      exists i. split; [apply in_seq; lia|exact Hi].
    + unfold unpaired.
      rewrite (proj2 (nth_error_None units i) Hge). reflexivity.
Qed.

(** ** Size and content of the result *)

Lemma utf8_encode_length_bmp cp :
  cp < 0x10000 -> (1 <= length (utf8_encode cp) <= 3)%nat.
Proof.
  intros Hcp. unfold utf8_encode.
  destruct (cp <? 0x80); [cbn; lia|].
  destruct (cp <? 0x800); [cbn; lia|].
  destruct (cp <? 0x10000) eqn:H3; [cbn; lia|].
  apply Z.ltb_ge in H3. lia.
Qed.

Lemma utf8_encode_length_supplementary cp :
  0x10000 <= cp -> length (utf8_encode cp) = 4%nat.
Proof.
  intros Hcp. unfold utf8_encode.
  destruct (cp <? 0x80) eqn:H1; [apply Z.ltb_lt in H1; lia|].
  destruct (cp <? 0x800) eqn:H2; [apply Z.ltb_lt in H2; lia|].
  destruct (cp <? 0x10000) eqn:H3; [apply Z.ltb_lt in H3; lia|].
  reflexivity.
Qed.

(** One to three bytes per code unit. *)
Lemma utf8_of_utf16_length units cps :
  utf16_decode units = Some cps ->
  Forall (fun u => 0 <= u <= WCHAR_MAX) units ->
  (length units <= length (flat_map utf8_encode cps) <= 3 * length units)%nat.
Proof.
  intros Hd. revert units cps Hd.
  apply (utf16_decode_cases (fun units cps =>
    Forall (fun u => 0 <= u <= WCHAR_MAX) units ->
    (length units <= length (flat_map utf8_encode cps) <= 3 * length units)%nat)).
  - intros _. cbn. lia.
  - intros u rest cps _ _ _ IH Hrange.
    inversion Hrange as [|? ? Hu Hrest]; subst. specialize (IH Hrest).
    cbn [flat_map length]. rewrite length_app.
    pose proof (utf8_encode_length_bmp u ltac:(unfold WCHAR_MAX in Hu; lia)).
    lia.
  - intros hi lo rest cps Hh Hl _ IH Hrange.
    inversion Hrange as [|? ? _ Hrest]; subst.
    inversion Hrest as [|? ? _ Hrest']; subst. specialize (IH Hrest').
    cbn [flat_map length]. rewrite length_app.
    destruct (pair_value_surrogate_pair hi lo Hh Hl) as [_ Hsp].
    rewrite utf8_encode_length_supplementary by lia. lia.
Qed.

(** The bytes of an encoded non-null code point: never null, never
    above 0xF4. *)
Lemma utf8_encode_bytes cp :
  0 < cp <= 0x10FFFF -> Forall (fun b => 1 <= b <= 0xF4) (utf8_encode cp).
Proof.
  intros Hcp. unfold utf8_encode.
  pose proof (Z.mod_pos_bound cp 64 ltac:(lia)) as Hr0.
  pose proof (Z.mod_pos_bound (cp / 64) 64 ltac:(lia)) as Hr1.
  pose proof (Z.mod_pos_bound (cp / 4096) 64 ltac:(lia)) as Hr2.
  destruct (cp <? 0x80) eqn:H1.
  { apply Z.ltb_lt in H1. repeat constructor; lia. }
  apply Z.ltb_ge in H1.
  destruct (cp <? 0x800) eqn:H2.
  { apply Z.ltb_lt in H2.
    assert (0 <= cp / 64 < 32)
      by (split; [apply Z.div_pos; lia|apply Z.div_lt_upper_bound; lia]).
    repeat constructor; lia. }
  apply Z.ltb_ge in H2.
  destruct (cp <? 0x10000) eqn:H3.
  { apply Z.ltb_lt in H3.
    assert (0 <= cp / 4096 < 16)
      by (split; [apply Z.div_pos; lia|apply Z.div_lt_upper_bound; lia]).
    repeat constructor; lia. }
  apply Z.ltb_ge in H3.
  assert (0 <= cp / 262144 <= 4).
  { split; [apply Z.div_pos; lia|].
    apply Z.lt_succ_r. apply Z.div_lt_upper_bound; lia. }
  repeat constructor; lia.
Qed.

Lemma utf8_of_utf16_bytes units cps :
  utf16_decode units = Some cps ->
  Forall (fun u => 0 < u <= WCHAR_MAX) units ->
  Forall (fun b => 1 <= b <= 0xF4) (flat_map utf8_encode cps).
Proof.
  intros Hd. revert units cps Hd.
  apply (utf16_decode_cases (fun units cps =>
    Forall (fun u => 0 < u <= WCHAR_MAX) units ->
    Forall (fun b => 1 <= b <= 0xF4) (flat_map utf8_encode cps))).
  - intros _. constructor.
  - intros u rest cps _ _ _ IH Hrange.
    inversion Hrange as [|? ? Hu Hrest]; subst.
    cbn [flat_map]. apply Forall_app. split; [|apply IH; exact Hrest].
    apply utf8_encode_bytes. unfold WCHAR_MAX in Hu. lia.
  - intros hi lo rest cps Hh Hl _ IH Hrange.
    inversion Hrange as [|? ? _ Hrest]; subst.
    inversion Hrest as [|? ? _ Hrest']; subst.
    cbn [flat_map]. apply Forall_app. split; [|apply IH; exact Hrest'].
    destruct (pair_value_surrogate_pair hi lo Hh Hl) as [_ Hsp].
    apply utf8_encode_bytes. lia.
Qed.

(** The units of a terminated string are non-null 16-bit values. *)
Lemma terminated_units s L :
  wcslen_is s L -> wchars s L ->
  Forall (fun u => 0 < u <= WCHAR_MAX) (wcs s L).
Proof.
  intros (_ & _ & Hnz) Hrange. apply wcs_Forall.
  intros i Hi. specialize (Hnz i Hi). specialize (Hrange i Hi). lia.
Qed.

Lemma Forall_units_weaken units :
  Forall (fun u => 0 < u <= WCHAR_MAX) units ->
  Forall (fun u => 0 <= u <= WCHAR_MAX) units.
Proof. apply Forall_impl. intros u Hu. lia. Qed.

(** The string returned for a well-formed terminated string. *)
Lemma Utf8FromUtf16_on_well_formed (W : Platform) s L cps :
  StrictUtf8 W ->
  0 < L < kMaxUtf16Scan -> wcslen_is s L -> wchars s L ->
  utf16_decode (wcs s L) = Some cps ->
  Utf8FromUtf16_on W (ptr s) = flat_map utf8_encode cps.
Proof.
  intros HW HL Hlen Hrange Hd. unfold Utf8FromUtf16_on.
  rewrite (Utf8FromUtf16_well_formed W s L (flat_map utf8_encode cps));
    try assumption; [reflexivity|].
  unfold utf8_of_utf16. rewrite Hd. reflexivity.
Qed.

(** X6. On a platform that meets the contract of the strict UTF-8
    primitive: for a terminated string of 16-bit units with
    [0 < L < kMaxUtf16Scan], the empty result means rejection and nothing
    else: [Utf8FromUtf16] returns the empty string exactly when some unit
    of the string is an unpaired surrogate. *)
Theorem Utf8FromUtf16_empty_iff_unpaired (W : Platform) (s : Z -> wchar_t) (L : Z) :
  StrictUtf8 W ->
  0 < L < kMaxUtf16Scan ->
  wcslen_is s L ->
  wchars s L ->
  Utf8FromUtf16_on W (ptr s) = [] <-> exists i, unpaired (wcs s L) i = true.
Proof.
  intros HW HL Hlen Hrange. split.
  - intros Hempty.
    destruct (unpaired_decide (wcs s L)) as [Hok|Hbad]; [|exact Hbad].
    exfalso.
    destruct (utf16_decode_well_formed _ Hok) as [cps Hd].
    pose proof (utf8_of_utf16_length _ _ Hd
                  (Forall_units_weaken _ (terminated_units s L Hlen Hrange)))
      as Hsize.
    rewrite wcs_length in Hsize.
    rewrite (Utf8FromUtf16_on_well_formed W s L cps HW HL Hlen Hrange Hd)
      in Hempty.
    rewrite Hempty in Hsize. cbn [length] in Hsize. lia.
  - intros [i Hbad]. unfold Utf8FromUtf16_on.
    rewrite (Utf8FromUtf16_ill_formed W s L HW HL Hlen); [reflexivity|].
    unfold utf8_of_utf16. rewrite (utf16_decode_ill_formed _ i Hbad).
    reflexivity.
Qed.

Lemma wstr_lone_low_length : wcslen_is (wstr [0xDC00; 0x41]) 2.
Proof.
  split; [lia|]. split; [reflexivity|].
  intros i Hi. assert (Hc : i = 0 \/ i = 1) by lia.
  destruct Hc as [H0 | H0]; subst i; discriminate.
Qed.

Lemma wstr_lone_low_wchars : wchars (wstr [0xDC00; 0x41]) 2.
Proof.
  intros i Hi. assert (Hc : i = 0 \/ i = 1) by lia.
  destruct Hc as [H0 | H0]; subst i; vm_compute; split; discriminate.
Qed.

Lemma Utf8FromUtf16_empty_iff_unpaired_witness :
  exists i, unpaired (wcs (wstr [0xDC00; 0x41]) 2) i = true.
Proof.
  assert (HL : 0 < 2 < kMaxUtf16Scan) by (rewrite kMaxUtf16Scan_value; lia).
  apply (Utf8FromUtf16_empty_iff_unpaired Win32.platform (wstr [0xDC00; 0x41]) 2
           win32_strict_utf8 HL wstr_lone_low_length wstr_lone_low_wchars).
  vm_compute. reflexivity.
Defined.

(** X7. On a platform that meets the contract of the strict UTF-8
    primitive: the result for a well-formed terminated string of [L]
    units ([0 < L < kMaxUtf16Scan]) has at least [L] and at most [3 * L]
    bytes. *)
Theorem Utf8FromUtf16_length_bounds (W : Platform) (s : Z -> wchar_t) (L : Z) :
  StrictUtf8 W ->
  0 < L < kMaxUtf16Scan ->
  wcslen_is s L ->
  wchars s L ->
  (forall i, unpaired (wcs s L) i = false) ->
  L <= Z.of_nat (length (Utf8FromUtf16_on W (ptr s))) <= 3 * L.
Proof.
  intros HW HL Hlen Hrange Hok.
  destruct (utf16_decode_well_formed _ Hok) as [cps Hd].
  pose proof (utf8_of_utf16_length _ _ Hd
                (Forall_units_weaken _ (terminated_units s L Hlen Hrange)))
    as Hsize.
  rewrite wcs_length in Hsize.
  rewrite (Utf8FromUtf16_on_well_formed W s L cps HW HL Hlen Hrange Hd).
  lia.
Qed.

Lemma wstr_euro_length : wcslen_is (wstr [0x20AC; 0xD83D; 0xDE00]) 3.
Proof.
  split; [lia|]. split; [reflexivity|].
  intros i Hi. assert (Hc : i = 0 \/ i = 1 \/ i = 2) by lia.
  destruct Hc as [H0 | [H0 | H0]]; subst i; discriminate.
Qed.

Lemma wstr_euro_wchars : wchars (wstr [0x20AC; 0xD83D; 0xDE00]) 3.
Proof.
  intros i Hi. assert (Hc : i = 0 \/ i = 1 \/ i = 2) by lia.
  destruct Hc as [H0 | [H0 | H0]]; subst i; vm_compute; split; discriminate.
Qed.

Lemma wstr_euro_well_formed :
  forall i, unpaired (wcs (wstr [0x20AC; 0xD83D; 0xDE00]) 3) i = false.
Proof. intros [|[|[|[|i]]]]; reflexivity. Qed.

Lemma kMaxUtf16Scan_above_3 : 0 < 3 < kMaxUtf16Scan.
Proof. rewrite kMaxUtf16Scan_value. lia. Qed.

Lemma Utf8FromUtf16_length_bounds_witness :
  3 <= Z.of_nat (length (Utf8FromUtf16_on Win32.platform
                           (ptr (wstr [0x20AC; 0xD83D; 0xDE00])))) <= 3 * 3.
Proof.
  exact (Utf8FromUtf16_length_bounds Win32.platform
           (wstr [0x20AC; 0xD83D; 0xDE00]) 3 win32_strict_utf8
           kMaxUtf16Scan_above_3 wstr_euro_length wstr_euro_wchars
           wstr_euro_well_formed).
Defined.

(** X8. On a platform that meets the contract of the strict UTF-8
    primitive: the result for a well-formed terminated string holds no
    null byte and no byte above 0xF4; every byte lies between 1 and
    0xF4. *)
Theorem Utf8FromUtf16_no_null_byte (W : Platform) (s : Z -> wchar_t) (L : Z) :
  StrictUtf8 W ->
  0 < L < kMaxUtf16Scan ->
  wcslen_is s L ->
  wchars s L ->
  (forall i, unpaired (wcs s L) i = false) ->
  Forall (fun b => 1 <= b <= 0xF4) (Utf8FromUtf16_on W (ptr s)).
Proof.
  intros HW HL Hlen Hrange Hok.
  destruct (utf16_decode_well_formed _ Hok) as [cps Hd].
  rewrite (Utf8FromUtf16_on_well_formed W s L cps HW HL Hlen Hrange Hd).
  apply (utf8_of_utf16_bytes _ _ Hd).
  apply terminated_units; assumption.
Qed.

Lemma Utf8FromUtf16_no_null_byte_witness :
  Forall (fun b => 1 <= b <= 0xF4)
         (Utf8FromUtf16_on Win32.platform (ptr (wstr [0x20AC; 0xD83D; 0xDE00]))).
Proof.
  exact (Utf8FromUtf16_no_null_byte Win32.platform
           (wstr [0x20AC; 0xD83D; 0xDE00]) 3 win32_strict_utf8
           kMaxUtf16Scan_above_3 wstr_euro_length wstr_euro_wchars
           wstr_euro_well_formed).
Defined.

(** ** Concatenation, decoding and injectivity *)

Lemma utf16_decode_app a b ca cb :
  utf16_decode a = Some ca -> utf16_decode b = Some cb ->
  utf16_decode (a ++ b) = Some (ca ++ cb).
Proof.
  intros Ha Hb. revert a ca Ha.
  apply (utf16_decode_cases (fun a ca => utf16_decode (a ++ b) = Some (ca ++ cb))).
  - exact Hb.
  - intros u rest cps Hh Hl _ IH. cbn [app utf16_decode].
    rewrite Hh, Hl, IH. reflexivity.
  - intros hi lo rest cps Hh Hl _ IH. cbn [app utf16_decode].
    rewrite Hh, Hl, IH. reflexivity.
Qed.

(** X9. On a platform that meets the contract of the strict UTF-8
    primitive: conversion distributes over concatenation.  For two
    well-formed strings of non-null 16-bit units whose concatenation is
    shorter than the scan bound, the result for the concatenation is the
    two results one after the other. *)
Theorem Utf8FromUtf16_concat (W : Platform) (a b : list wchar_t) :
  StrictUtf8 W ->
  Forall (fun u => 0 < u <= WCHAR_MAX) a ->
  Forall (fun u => 0 < u <= WCHAR_MAX) b ->
  (forall i, unpaired a i = false) ->
  (forall i, unpaired b i = false) ->
  Z.of_nat (length (a ++ b)) < kMaxUtf16Scan ->
  Utf8FromUtf16_on W (ptr (wstr (a ++ b)))
  = Utf8FromUtf16_on W (ptr (wstr a)) ++ Utf8FromUtf16_on W (ptr (wstr b)).
Proof.
  intros HW Ha Hb Hoka Hokb Hlen.
  destruct (utf16_decode_well_formed _ Hoka) as [ca Hda].
  destruct (utf16_decode_well_formed _ Hokb) as [cb Hdb].
  rewrite length_app in Hlen.
  rewrite (Utf8FromUtf16_wstr W a (flat_map utf8_encode ca) HW Ha);
    [|lia|unfold utf8_of_utf16; rewrite Hda; reflexivity].
  rewrite (Utf8FromUtf16_wstr W b (flat_map utf8_encode cb) HW Hb);
    [|lia|unfold utf8_of_utf16; rewrite Hdb; reflexivity].
  rewrite <- flat_map_app.
  apply (Utf8FromUtf16_wstr W (a ++ b) _ HW).
  - apply Forall_app. split; assumption.
  - rewrite length_app. lia.
  - unfold utf8_of_utf16. rewrite (utf16_decode_app a b ca cb Hda Hdb).
    reflexivity.
Qed.

Lemma Utf8FromUtf16_concat_witness :
  Utf8FromUtf16_on Win32.platform (ptr (wstr ([0x41; 0x20AC] ++ [0xD83D; 0xDE00])))
  = Utf8FromUtf16_on Win32.platform (ptr (wstr [0x41; 0x20AC]))
    ++ Utf8FromUtf16_on Win32.platform (ptr (wstr [0xD83D; 0xDE00])).
Proof.
  apply (Utf8FromUtf16_concat Win32.platform [0x41; 0x20AC] [0xD83D; 0xDE00]
           win32_strict_utf8).
  - repeat constructor; unfold WCHAR_MAX; lia.
  - repeat constructor; unfold WCHAR_MAX; lia.
  - intros [|[|[|i]]]; reflexivity.
  - intros [|[|[|i]]]; reflexivity.
  - rewrite kMaxUtf16Scan_value. cbn. lia.
Defined.

(** X10. On a platform that meets the contract of the strict UTF-8
    primitive: for every well-formed terminated string (not only ASCII)
    the UTF-8 decoder applied to the result gives back the characters
    the input encodes, each a Unicode scalar value. *)
Theorem Utf8FromUtf16_unicode_round_trip
    (W : Platform) (s : Z -> wchar_t) (L : Z) :
  StrictUtf8 W ->
  0 < L < kMaxUtf16Scan ->
  wcslen_is s L ->
  wchars s L ->
  (forall i, unpaired (wcs s L) i = false) ->
  exists cps,
    utf16_decode (wcs s L) = Some cps /\
    Forall scalar_value cps /\
    utf8_decode (Utf8FromUtf16_on W (ptr s)) = Some cps.
Proof.
  intros HW HL Hlen Hrange Hok.
  destruct (utf16_decode_well_formed _ Hok) as [cps Hd].
  exists cps. split; [exact Hd|]. split.
  - apply (utf16_decode_scalar _ (wcs s L) cps (le_n _)); [|exact Hd].
    apply wcs_Forall. exact Hrange.
  - apply (Utf8FromUtf16_round_trip W s L cps); assumption.
Qed.

Lemma Utf8FromUtf16_unicode_round_trip_witness :
  exists cps,
    utf16_decode (wcs (wstr [0x20AC; 0xD83D; 0xDE00]) 3) = Some cps /\
    Forall scalar_value cps /\
    utf8_decode (Utf8FromUtf16_on Win32.platform
                   (ptr (wstr [0x20AC; 0xD83D; 0xDE00]))) = Some cps.
Proof.
  exact (Utf8FromUtf16_unicode_round_trip Win32.platform
           (wstr [0x20AC; 0xD83D; 0xDE00]) 3 win32_strict_utf8
           kMaxUtf16Scan_above_3 wstr_euro_length wstr_euro_wchars
           wstr_euro_well_formed).
Defined.

Lemma utf16_encode_pair hi lo :
  is_high_surrogate hi = true -> is_low_surrogate lo = true ->
  utf16_encode (surrogate_pair hi lo) = [hi; lo].
Proof.
  intros Hh Hl.
  destruct (pair_value_surrogate_pair hi lo Hh Hl) as [_ Hsp].
  apply high_surrogate_range in Hh. apply low_surrogate_range in Hl.
  unfold utf16_encode.
  destruct (_ <? 0x10000) eqn:Hlt; [apply Z.ltb_lt in Hlt; lia|].
  unfold surrogate_pair.
  replace (0x10000 + (hi - 0xD800) * 0x400 + (lo - 0xDC00) - 0x10000)
    with ((lo - 0xDC00) + (hi - 0xD800) * 0x400) by lia.
  rewrite Z.div_add, Z.mod_add by lia.
  rewrite Z.div_small, Z.mod_small by lia.
  f_equal; [lia|f_equal; lia].
Qed.

(** Re-encoding the decoded characters gives back the units. *)
Lemma utf16_encode_decode units cps :
  utf16_decode units = Some cps ->
  Forall (fun u => 0 <= u <= WCHAR_MAX) units ->
  flat_map utf16_encode cps = units.
Proof.
  intros Hd. revert units cps Hd.
  apply (utf16_decode_cases (fun units cps =>
    Forall (fun u => 0 <= u <= WCHAR_MAX) units ->
    flat_map utf16_encode cps = units)).
  - reflexivity.
  - intros u rest cps _ _ _ IH Hrange.
    inversion Hrange as [|? ? Hu Hrest]; subst.
    cbn [flat_map]. rewrite (IH Hrest). unfold utf16_encode, WCHAR_MAX in *.
    destruct (u <? 0x10000) eqn:Hlt; [reflexivity|apply Z.ltb_ge in Hlt; lia].
  - intros hi lo rest cps Hh Hl _ IH Hrange.
    inversion Hrange as [|? ? _ Hrest]; subst.
    inversion Hrest as [|? ? _ Hrest']; subst.
    cbn [flat_map]. rewrite (IH Hrest'), (utf16_encode_pair hi lo Hh Hl).
    reflexivity.
Qed.

(** X11. On a platform that meets the contract of the strict UTF-8
    primitive: conversion loses nothing.  Two well-formed terminated
    strings with the same result have the same length and the same
    units. *)
Theorem Utf8FromUtf16_injective
    (W : Platform) (s1 s2 : Z -> wchar_t) (L1 L2 : Z) :
  StrictUtf8 W ->
  0 < L1 < kMaxUtf16Scan -> wcslen_is s1 L1 -> wchars s1 L1 ->
  (forall i, unpaired (wcs s1 L1) i = false) ->
  0 < L2 < kMaxUtf16Scan -> wcslen_is s2 L2 -> wchars s2 L2 ->
  (forall i, unpaired (wcs s2 L2) i = false) ->
  Utf8FromUtf16_on W (ptr s1) = Utf8FromUtf16_on W (ptr s2) ->
  L1 = L2 /\ wcs s1 L1 = wcs s2 L2.
Proof.
  intros HW HL1 Hlen1 Hr1 Hok1 HL2 Hlen2 Hr2 Hok2 Hsame.
  destruct (utf16_decode_well_formed _ Hok1) as [cps1 Hd1].
  destruct (utf16_decode_well_formed _ Hok2) as [cps2 Hd2].
  pose proof (Utf8FromUtf16_round_trip W s1 L1 cps1 HW HL1 Hlen1 Hr1 Hd1) as Hrt1.
  pose proof (Utf8FromUtf16_round_trip W s2 L2 cps2 HW HL2 Hlen2 Hr2 Hd2) as Hrt2.
  rewrite Hsame, Hrt2 in Hrt1. inversion Hrt1. subst cps2.
  assert (Hunits : wcs s1 L1 = wcs s2 L2).
  { rewrite <- (utf16_encode_decode _ _ Hd1) by (apply wcs_Forall; exact Hr1).
    rewrite <- (utf16_encode_decode _ _ Hd2) by (apply wcs_Forall; exact Hr2).
    reflexivity. }
  split; [|exact Hunits].
  apply (f_equal (@length Z)) in Hunits. rewrite !wcs_length in Hunits. lia.
Qed.

Lemma wstr_A_length l : wcslen_is (wstr (0x41 :: 0 :: l)) 1.
Proof.
  split; [lia|]. split; [reflexivity|].
  intros i Hi. assert (H0 : i = 0) by lia. subst i. discriminate.
Qed.

Lemma wstr_A_wchars l : wchars (wstr (0x41 :: 0 :: l)) 1.
Proof.
  intros i Hi. assert (H0 : i = 0) by lia. subst i.
  vm_compute. split; discriminate.
Qed.

Lemma Utf8FromUtf16_injective_witness :
  1 = 1 /\ wcs (wstr [0x41; 0]) 1 = wcs (wstr [0x41; 0; 0x42]) 1.
Proof.
  assert (HL : 0 < 1 < kMaxUtf16Scan) by (rewrite kMaxUtf16Scan_value; lia).
  apply (Utf8FromUtf16_injective Win32.platform
           (wstr [0x41; 0]) (wstr [0x41; 0; 0x42]) 1 1 win32_strict_utf8
           HL (wstr_A_length []) (wstr_A_wchars [])).
  - intros [|[|i]]; reflexivity.
  - exact HL.
  - exact (wstr_A_length [0x42]).
  - exact (wstr_A_wchars [0x42]).
  - intros [|[|i]]; reflexivity.
  - vm_compute. reflexivity.
Defined.

(** ** [GetCommandLineArguments] *)

Lemma int_succ_small i : - 2 ^ 31 <= i < INT_MAX -> int_succ i = i + 1.
Proof.
  intros Hi. unfold int_succ, static_cast_int, INT_MAX in *.
  rewrite Z.mod_small by lia. lia.
Qed.

(** The loop appends the conversions of [argv[i] .. argv[argc-1]], in
    order, and leaves on its own condition. *)
Lemma push_arguments_map fuel W argv argc : forall i acc,
  - 2 ^ 31 <= i -> argc <= INT_MAX -> argc - i <= Z.of_nat fuel ->
  push_arguments fuel W argv argc i acc
  = acc ++ map (fun k => Utf8FromUtf16_on W (argv (i + Z.of_nat k)))
               (seq 0 (Z.to_nat (argc - i))).
Proof.
  induction fuel as [|fuel IH]; intros i acc Hi Hargc Hfuel;
    cbn [push_arguments].
  - replace (Z.to_nat (argc - i)) with O by lia. cbn. rewrite app_nil_r.
    reflexivity.
  - destruct (i <? argc) eqn:Hlt.
    + apply Z.ltb_lt in Hlt. rewrite int_succ_small by lia.
      rewrite IH by lia.
      replace (Z.to_nat (argc - i)) with (S (Z.to_nat (argc - (i + 1)))) by lia.
      cbn [seq map]. rewrite Z.add_0_r, <- app_assoc. cbn [app].
      do 2 f_equal. rewrite <- seq_shift, map_map.
      apply map_ext. intros k. do 2 f_equal. lia.
    + apply Z.ltb_ge in Hlt.
      replace (Z.to_nat (argc - i)) with O by lia. cbn. rewrite app_nil_r.
      reflexivity.
Qed.

Lemma GetCommandLineArguments_map (W : Platform) argv argc :
  argc <= INT_MAX ->
  GetCommandLineArguments W {| cl_argv := Some argv; cl_argc := argc |}
  = (map (fun k => Utf8FromUtf16_on W (argv (1 + Z.of_nat k)))
         (seq 0 (Z.to_nat (argc - 1))),
     [argv]).
Proof.
  intros Hargc. unfold GetCommandLineArguments. cbn [cl_argv cl_argc].
  rewrite push_arguments_map by lia. reflexivity.
Qed.

(** X12. For every argument array and every count [argc] of type [int]:
    [GetCommandLineArguments] returns the conversions of [argv[1]],
    ..., [argv[argc-1]], one entry per argument and in their order.  An
    argument whose conversion fails takes its place as an empty string;
    the array is handed to [LocalFree] once. *)
Theorem GetCommandLineArguments_converts_in_order
    (W : Platform) (argv : Z -> wptr) (argc : Z) :
  argc <= INT_MAX ->
  let '(arguments, freed) :=
    GetCommandLineArguments W {| cl_argv := Some argv; cl_argc := argc |} in
  length arguments = Z.to_nat (argc - 1) /\
  (forall i, 1 <= i < argc ->
     nth_error arguments (Z.to_nat (i - 1)) = Some (Utf8FromUtf16_on W (argv i))) /\
  freed = [argv].
Proof.
  intros Hargc. rewrite (GetCommandLineArguments_map W argv argc Hargc).
  split; [rewrite length_map, length_seq; reflexivity|].
  split; [|reflexivity].
  intros i Hi.
  rewrite nth_error_map, nth_error_seq.
  destruct (Nat.ltb_spec (Z.to_nat (i - 1)) (Z.to_nat (argc - 1))) as [_|Hge];
    [|lia].
  cbn [option_map]. do 3 f_equal. lia.
Qed.

Lemma GetCommandLineArguments_converts_in_order_witness :
  GetCommandLineArguments Win32.platform
    {| cl_argv := Some (argv_of [[0x61]; [0x41]; [0xD800]; [0x42]]);
       cl_argc := 4 |}
  = ([[0x41]; []; [0x42]], [argv_of [[0x61]; [0x41]; [0xD800]; [0x42]]]).
Proof.
  pose proof (GetCommandLineArguments_converts_in_order Win32.platform
                (argv_of [[0x61]; [0x41]; [0xD800]; [0x42]]) 4
                ltac:(unfold INT_MAX; lia)) as H.
  destruct (GetCommandLineArguments Win32.platform _) as [arguments freed].
  destruct H as (Hlen & Hnth & Hfreed). subst freed. f_equal.
  pose proof (Hnth 1 ltac:(lia)) as H1.
  pose proof (Hnth 2 ltac:(lia)) as H2.
  pose proof (Hnth 3 ltac:(lia)) as H3.
  destruct arguments as [|a1 [|a2 [|a3 [|a4 rest]]]]; try discriminate.
  vm_compute in H1, H2, H3.
  inversion H1. inversion H2. inversion H3. reflexivity.
Defined.

(** X13. [GetCommandLineArguments] returns no arguments and frees
    nothing when the command-line call returned no array, and no
    arguments when [argc <= 1]; otherwise it returns exactly [argc - 1]
    strings, whatever the arguments are. *)
Theorem GetCommandLineArguments_count (W : Platform) (cl : CommandLine) :
  cl_argc cl <= INT_MAX ->
  match cl_argv cl with
  | None => GetCommandLineArguments W cl = ([], [])
  | Some argv =>
      (cl_argc cl <= 1 -> GetCommandLineArguments W cl = ([], [argv])) /\
      Z.of_nat (length (fst (GetCommandLineArguments W cl)))
      = Z.max 0 (cl_argc cl - 1)
  end.
Proof.
  intros Hargc. destruct cl as [[argv|] argc]; cbn [cl_argv cl_argc] in *;
    [|reflexivity].
  rewrite (GetCommandLineArguments_map W argv argc Hargc). cbn [fst]. split.
  - intros Hle. replace (Z.to_nat (argc - 1)) with O by lia. reflexivity.
  - rewrite length_map, length_seq. lia.
Qed.

Lemma GetCommandLineArguments_count_witness :
  GetCommandLineArguments Win32.platform
    {| cl_argv := Some (argv_of [[0x61]]); cl_argc := 1 |}
  = ([], [argv_of [[0x61]]]).
Proof.
  apply (GetCommandLineArguments_count Win32.platform
           {| cl_argv := Some (argv_of [[0x61]]); cl_argc := 1 |}).
  - cbn [cl_argc]. unfold INT_MAX. lia.
  - cbn [cl_argc]. lia.
Defined.

(** X14. The program name is skipped: [GetCommandLineArguments] reads
    [argv[1] .. argv[argc-1]] only.  Two arrays with the same pointers
    at these indices give the same strings, whatever [argv[0]] and the
    entries from [argv[argc]] on are. *)
Theorem GetCommandLineArguments_skips_program_name
    (W : Platform) (argv argv' : Z -> wptr) (argc : Z) :
  argc <= INT_MAX ->
  (forall i, 1 <= i < argc -> argv i = argv' i) ->
  fst (GetCommandLineArguments W {| cl_argv := Some argv; cl_argc := argc |})
  = fst (GetCommandLineArguments W {| cl_argv := Some argv'; cl_argc := argc |}).
Proof.
  intros Hargc Hagree.
  rewrite !GetCommandLineArguments_map by exact Hargc. cbn [fst].
  apply map_ext_in. intros k Hk. apply in_seq in Hk.
  rewrite Hagree by lia. reflexivity.
Qed.

Lemma GetCommandLineArguments_skips_program_name_witness :
  fst (GetCommandLineArguments Win32.platform
         {| cl_argv := Some (argv_of [[0x61]; [0x41]]); cl_argc := 2 |})
  = fst (GetCommandLineArguments Win32.platform
           {| cl_argv := Some (argv_of [[0x62; 0x63]; [0x41]; [0x5A]]);
              cl_argc := 2 |}).
Proof.
  apply (GetCommandLineArguments_skips_program_name Win32.platform
           (argv_of [[0x61]; [0x41]]) (argv_of [[0x62; 0x63]; [0x41]; [0x5A]]) 2).
  - unfold INT_MAX. lia.
  - intros i Hi. assert (H1 : i = 1) by lia. subst i. reflexivity.
Defined.

Lemma map_nth_seq {A B : Type} (g : A -> B) (d : A) (l : list A) :
  map (fun k => g (nth k l d)) (seq 0 (length l)) = map g l.
Proof.
  induction l as [|a l IH]; [reflexivity|].
  cbn [length seq map nth]. f_equal.
  rewrite <- seq_shift, map_map. exact IH.
Qed.

(** X15. On a platform that meets the contract of the strict UTF-8
    primitive: when every argument after the program name is a
    well-formed string of non-null 16-bit units shorter than the scan
    bound, [GetCommandLineArguments] returns the standard UTF-8
    encodings of the arguments, in order. *)
Theorem GetCommandLineArguments_encodes_arguments
    (W : Platform) (name : list wchar_t) (args : list (list wchar_t))
    (encoded : list (list char)) :
  StrictUtf8 W ->
  Z.of_nat (length args) < INT_MAX ->
  Forall (fun l => Forall (fun u => 0 < u <= WCHAR_MAX) l /\
                   Z.of_nat (length l) < kMaxUtf16Scan) args ->
  Forall2 (fun l bytes => utf8_of_utf16 l = Some bytes) args encoded ->
  fst (GetCommandLineArguments W
         {| cl_argv := Some (argv_of (name :: args));
            cl_argc := 1 + Z.of_nat (length args) |})
  = encoded.
Proof.
  intros HW Hcount Hargs Henc.
  rewrite GetCommandLineArguments_map by lia. cbn [fst].
  replace (Z.to_nat (1 + Z.of_nat (length args) - 1)) with (length args) by lia.
  rewrite (map_ext _ (fun k => Utf8FromUtf16_on W
                                 (nth k (map (fun l => ptr (wstr l)) args) nullptr))).
  2:{ intros k. unfold argv_of.
      replace (Z.to_nat (1 + Z.of_nat k)) with (S k) by lia. reflexivity. }
  rewrite <- (length_map (fun l => ptr (wstr l)) args).
  rewrite (map_nth_seq (Utf8FromUtf16_on W) nullptr), map_map.
  induction Henc as [|l bytes args encoded Hl _ IH]; [reflexivity|].
  inversion Hargs as [|? ? [Hunits Hlen] Hrest]; subst.
  cbn [map]. f_equal.
  - apply (Utf8FromUtf16_wstr W l bytes HW Hunits Hlen Hl).
  - apply IH; [cbn [length] in Hcount; lia|exact Hrest].
Qed.

Lemma GetCommandLineArguments_encodes_arguments_witness :
  fst (GetCommandLineArguments Win32.platform
         {| cl_argv := Some (argv_of ([0x61] :: [[0x2D; 0x78]; []; [0x20AC]]));
            cl_argc := 1 + Z.of_nat (length [[0x2D; 0x78]; []; [0x20AC]]) |})
  = [[0x2D; 0x78]; []; [0xE2; 0x82; 0xAC]].
Proof.
  apply (GetCommandLineArguments_encodes_arguments Win32.platform [0x61]
           [[0x2D; 0x78]; []; [0x20AC]] [[0x2D; 0x78]; []; [0xE2; 0x82; 0xAC]]
           win32_strict_utf8).
  - unfold INT_MAX. cbn. lia.
  - rewrite kMaxUtf16Scan_value.
    repeat constructor; unfold WCHAR_MAX; cbn; lia.
  - repeat constructor.
Defined.

Lemma Utf8FromUtf16_sized_to_query_witness :
  0 < 3 /\ 3 <> 0 /\
  length [0xE2; 0x82; 0xAC] = Z.to_nat (static_cast_size_t 3).
Proof.
  apply (Utf8FromUtf16_sized_to_query Win32.platform (ptr (wstr [0x20AC])) 3 3
           [0xE2; 0x82; 0xAC]).
  vm_compute. reflexivity.
Defined.

(** ** ASCII *)

Lemma utf8_encode_ascii units :
  Forall (fun u => 0 <= u < 0x80) units -> flat_map utf8_encode units = units.
Proof.
  induction 1 as [|u rest Hu _ IH]; [reflexivity|].
  cbn [flat_map]. rewrite IH. unfold utf8_encode.
  destruct (u <? 0x80) eqn:Hlt; [reflexivity|apply Z.ltb_ge in Hlt; lia].
Qed.

(** X17. On a platform that meets the contract of the strict UTF-8
    primitive: a null-terminated ASCII string of length [L] with
    [0 < L < kMaxUtf16Scan] passes through unchanged.  The result has
    [L] bytes, the [i]-th being the value of the [i]-th unit. *)
Theorem Utf8FromUtf16_ascii_unchanged (W : Platform) (s : Z -> wchar_t) (L : Z) :
  StrictUtf8 W ->
  0 < L < kMaxUtf16Scan ->
  s L = 0 ->
  (forall i, 0 <= i < L -> 0 < s i < 0x80) ->
  Utf8FromUtf16_on W (ptr s) = wcs s L /\
  Z.of_nat (length (Utf8FromUtf16_on W (ptr s))) = L.
Proof.
  intros HW HL Hnul Hascii.
  assert (Hunits : Forall (fun u => 0 <= u < 0x80) (wcs s L)).
  { apply wcs_Forall. intros i Hi. specialize (Hascii i Hi). lia. }
  assert (Hres : Utf8FromUtf16_on W (ptr s) = wcs s L).
  { rewrite (Utf8FromUtf16_on_well_formed W s L (wcs s L) HW HL).
    - apply utf8_encode_ascii. exact Hunits.
    - split; [lia|]. split; [exact Hnul|].
      intros i Hi. specialize (Hascii i Hi). lia.
    - intros i Hi. specialize (Hascii i Hi). unfold WCHAR_MAX. lia.
    - apply utf16_decode_ascii. exact Hunits. }
  split; [exact Hres|]. rewrite Hres, wcs_length. lia.
Qed.

Lemma Utf8FromUtf16_ascii_unchanged_witness :
  Utf8FromUtf16_on Win32.platform (ptr (wstr [0x2D; 0x2D; 0x76]))
  = wcs (wstr [0x2D; 0x2D; 0x76]) 3 /\
  Z.of_nat (length (Utf8FromUtf16_on Win32.platform
                      (ptr (wstr [0x2D; 0x2D; 0x76])))) = 3.
Proof.
  apply (Utf8FromUtf16_ascii_unchanged Win32.platform (wstr [0x2D; 0x2D; 0x76]) 3
           win32_strict_utf8 kMaxUtf16Scan_above_3).
  - reflexivity.
  - intros i Hi. assert (Hc : i = 0 \/ i = 1 \/ i = 2) by lia.
    destruct Hc as [H0 | [H0 | H0]]; subst i; vm_compute; split; reflexivity.
Defined.

(** ** The size of a converted result *)




